(** * A shallow embedding of [agent.py] (BankStatementParserAgent)

    The agent drives a LangGraph state machine
    [plan -> generate_code -> (run_tests | END)],
    [run_tests -> (self_fix | END)], [self_fix -> generate_code].
    Python [str] values are modelled as [String.string] (code points
    below 256), Python [int] as [Z], exceptions raised inside a node and
    caught by its own [try] as an explicit sum type.  The external
    services (the Gemini model, [pd.read_csv], the [pytest] subprocess)
    are oracles supplied by an environment. *)

From Stdlib Require Import ZArith Lia List Bool Ascii String.
Import ListNotations.
Open Scope string_scope.

(** ** Python string primitives *)

Module Py.

(** Result of a Python expression that may raise. *)
Inductive exc (A : Type) : Type :=
| Ret (a : A)
| Raise (msg : string).
Arguments Ret {A} a.
Arguments Raise {A} msg.

Definition nl : string := String "010"%char EmptyString.

(** [s.startswith(p)], returning the remainder [s[len(p):]]. *)
Fixpoint strip_prefix (p s : string) : option string :=
  match p with
  | EmptyString => Some s
  | String c p' =>
      match s with
      | EmptyString => None
      | String d s' => if Ascii.eqb c d then strip_prefix p' s' else None
      end
  end.

(** The leftmost occurrence of [sep] in [s]: [(s[:i], s[i+len(sep):])]
    for [i = s.find(sep)], or [None] when [s.find(sep) = -1]. *)
Fixpoint cut_first (sep s : string) : option (string * string) :=
  match strip_prefix sep s with
  | Some r => Some (EmptyString, r)
  | None =>
      match s with
      | EmptyString => None
      | String c s' =>
          match cut_first sep s' with
          | Some (a, b) => Some (String c a, b)
          | None => None
          end
      end
  end.

(** [sep in s] *)
Definition contains (sep s : string) : bool :=
  match cut_first sep s with Some _ => true | None => false end.

(** [s.split(sep)] for a non-empty [sep]: every cut consumes at least one
    character, so [length s + 1] rounds never run out. *)
Fixpoint split_fuel (fuel : nat) (sep s : string) : list string :=
  match fuel with
  | O => [s]
  | S f =>
      match cut_first sep s with
      | Some (a, b) => a :: split_fuel f sep b
      | None => [s]
      end
  end.

Definition split (s sep : string) : list string :=
  split_fuel (S (String.length s)) sep s.

(** [l[i]] *)
Definition index {A} (l : list A) (i : nat) : exc A :=
  match nth_error l i with
  | Some x => Ret x
  | None => Raise "list index out of range"
  end.

(** [str.isspace] on code points below 256. *)
Definition is_space (c : ascii) : bool :=
  let n := nat_of_ascii c in
  ((9 <=? n) && (n <=? 13))%nat || ((28 <=? n) && (n <=? 32))%nat
  || (n =? 133)%nat || (n =? 160)%nat.

Fixpoint lstrip (s : string) : string :=
  match s with
  | EmptyString => EmptyString
  | String c s' => if is_space c then lstrip s' else s
  end.

Fixpoint rstrip (s : string) : string :=
  match s with
  | EmptyString => EmptyString
  | String c s' =>
      match rstrip s' with
      | EmptyString => if is_space c then EmptyString else String c EmptyString
      | r => String c r
      end
  end.

(** [s.strip()] *)
Definition strip (s : string) : string := rstrip (lstrip s).

(** Truthiness of a [str]: non-empty. *)
Definition truthy (s : string) : bool :=
  match s with EmptyString => false | _ => true end.

(** Truthiness of an [Optional[str]]. *)
Definition truthy_opt (o : option string) : bool :=
  match o with Some s => truthy s | None => false end.

(** f-string formatting of an [Optional[str]]. *)
Definition fmt_opt (o : option string) : string :=
  match o with Some s => s | None => "None" end.

End Py.

Import Py.

(** ** [_extract_code] *)

Definition FENCE_OPEN : string := "```python".
Definition FENCE_CLOSE : string := "```".

(** <<
    if "```python" in text:
        return text.split("```python")[1].split("```")[0].strip()
    return text.strip() if text else None
    >> *)
Definition _extract_code (text : string) : exc (option string) :=
  if contains FENCE_OPEN text then
    match index (split text FENCE_OPEN) 1 with
    | Raise m => Raise m
    | Ret piece =>
        match index (split piece FENCE_CLOSE) 0 with
        | Raise m => Raise m
        | Ret code => Ret (Some (strip code))
        end
    end
  else Ret (if truthy text then Some (strip text) else None).

(** The spec's reading of "the first occurrence of [sep] in [s]": [s] is
    [pre ++ sep ++ post] and no occurrence of [sep] starts earlier. *)
Definition first_occurrence (sep s pre post : string) : Prop :=
  s = pre ++ sep ++ post /\
  forall pre' post', s = pre' ++ sep ++ post' ->
    (String.length pre <= String.length pre')%nat.

(** ** Session state: [AgentState]

    The [messages] channel is left out: only [_plan_node] touches it and
    no other node reads it. *)

Record AgentState : Type := mkAgentState {
  target_bank : string;
  parser_path : string;
  csv_path : string;
  current_code : option string;
  test_results : option string;
  attempt_count : Z;
  max_attempts : Z;
  task_complete : bool
}.

Definition set_current_code (o : option string) (s : AgentState) : AgentState :=
  {| target_bank := target_bank s; parser_path := parser_path s;
     csv_path := csv_path s; current_code := o; test_results := test_results s;
     attempt_count := attempt_count s; max_attempts := max_attempts s;
     task_complete := task_complete s |}.

Definition set_test_results (o : option string) (s : AgentState) : AgentState :=
  {| target_bank := target_bank s; parser_path := parser_path s;
     csv_path := csv_path s; current_code := current_code s; test_results := o;
     attempt_count := attempt_count s; max_attempts := max_attempts s;
     task_complete := task_complete s |}.

Definition set_attempt_count (n : Z) (s : AgentState) : AgentState :=
  {| target_bank := target_bank s; parser_path := parser_path s;
     csv_path := csv_path s; current_code := current_code s;
     test_results := test_results s; attempt_count := n;
     max_attempts := max_attempts s; task_complete := task_complete s |}.

Definition set_task_complete (b : bool) (s : AgentState) : AgentState :=
  {| target_bank := target_bank s; parser_path := parser_path s;
     csv_path := csv_path s; current_code := current_code s;
     test_results := test_results s; attempt_count := attempt_count s;
     max_attempts := max_attempts s; task_complete := b |}.

(** ** The prompt of [_generate_code_node] *)

Definition ind : string := "        ".

Definition prompt_head : string :=
  nl ++ ind ++ "You are an expert Python developer. Generate a parser for '".

Definition prompt_middle : string :=
  "' bank statements." ++ nl ++ nl ++
  ind ++ "**CRITICAL INSTRUCTIONS:**" ++ nl ++
  ind ++ "1.  The PDF data has exactly 5 columns. Your parser must extract and handle exactly 5 columns." ++ nl ++
  ind ++ "2.  The required output DataFrame columns are STRICTLY: `['Date', 'Description', 'Debit Amt', 'Credit Amt', 'Balance']`." ++ nl ++
  ind ++ "3.  **DO NOT HALLUCINATE OR ADD EXTRA COLUMNS.** Specifically, do not add a 'Chq./Ref.No.' column. This is the most common cause of failure." ++ nl ++
  ind ++ "4.  Use `pdfplumber` and `page.extract_tables()`." ++ nl ++
  ind ++ "5.  Create the DataFrame from a list of dictionaries to ensure column mapping is correct." ++ nl ++ nl ++
  ind ++ "**Feedback from previous attempt:** ".

Definition prompt_tail : string :=
  nl ++ nl ++ ind ++ "Provide only the complete, runnable Python code." ++ nl ++ ind.

(** [state.get('test_results', 'This is the first attempt.')]: the key is
    always present (set to [None] by [run]), so the default is never used
    and [None] is formatted as the text [None]. *)
Definition build_prompt (state : AgentState) : string :=
  prompt_head ++ target_bank state ++ prompt_middle
  ++ fmt_opt (test_results state) ++ prompt_tail.

(** ** External collaborators *)

(** [self.model.generate_content(prompt)] followed by [response.text]. *)
Inductive GenOutcome : Type :=
| GenRaise (e : string)
| GenText (text : string).

(** [subprocess.run([...pytest...], capture_output=True, timeout=60)]:
    a completed process, or a raised [TimeoutExpired] / spawn error. *)
Inductive TestOutcome : Type :=
| Completed (returncode : Z) (stdout stderr : string)
| TestRaise (e : string).

(** Writing the extracted code:
    [os.makedirs(os.path.dirname(parser_path), exist_ok=True)], then
    [with open(parser_path, 'w') as f: f.write(code)].  [os.makedirs] or
    [open] may raise before the file is touched; once [open] has succeeded
    the file is truncated, and a raising [f.write] (or the flush when the
    file is closed) leaves the first [written] characters of the code in
    it, none for an encoding error. *)
Inductive WriteOutcome : Type :=
| WriteOk
| MakedirsRaise (e : string)
| OpenRaise (e : string)
| WriteRaise (e : string) (written : nat).

(** The outcomes the environment delivers: indexed by the number of
    previous generation (resp. test) steps, so every sequence of outcomes
    is one environment.  [env_read_csv] yields the columns of
    [pd.read_csv(csv_path)], [None] when it raises. *)
Record Env : Type := mkEnv {
  env_read_csv : nat -> option (list string);
  env_generate : nat -> string -> GenOutcome;
  env_pytest : nat -> TestOutcome;
  env_write : nat -> WriteOutcome
}.

(** ** Graph nodes *)

Definition MSG_NO_CODE : string := "Failed to generate valid Python code.".
Definition MSG_GEN_EXC : string := "An exception occurred during code generation: ".
Definition MSG_PASSED : string := "All tests passed successfully.".
Definition MSG_TEST_EXC : string := "An unexpected error occurred while running tests: ".

Definition tests_failed_msg (out err : string) : string :=
  "Tests failed." ++ nl ++ "STDOUT:" ++ nl ++ out ++ nl ++ "STDERR:" ++ nl ++ err.

(** [_generate_code_node]: [None] when [pd.read_csv] raises (outside the
    [try], so the exception leaves the graph); otherwise the new state, the
    new content of the file at [parser_path] and the prompt sent. *)
Definition _generate_code_node (read_csv : option (list string))
    (generate_content : string -> GenOutcome) (write : WriteOutcome)
    (state : AgentState) (parser_file : option string)
    : option (AgentState * option string * string) :=
  match read_csv with
  | None => None
  | Some _csv_schema =>
      let prompt := build_prompt state in
      let on_exception e :=
        set_test_results (Some (MSG_GEN_EXC ++ e)) (set_current_code None state) in
      match generate_content prompt with
      | GenRaise e => Some (on_exception e, parser_file, prompt)
      | GenText text =>
          match _extract_code text with
          | Raise e => Some (on_exception e, parser_file, prompt)
          | Ret code =>
              if truthy_opt code
              then match write with
                   | WriteOk => Some (set_current_code code state, code, prompt)
                   | MakedirsRaise e => Some (on_exception e, parser_file, prompt)
                   | OpenRaise e => Some (on_exception e, parser_file, prompt)
                   | WriteRaise e n =>
                       Some (on_exception e, option_map (substring 0 n) code, prompt)
                   end
              else Some (set_test_results (Some MSG_NO_CODE)
                           (set_current_code None state), parser_file, prompt)
          end
      end
  end.

Definition _run_tests_node (result : TestOutcome) (state : AgentState) : AgentState :=
  match result with
  | Completed rc out err =>
      if (rc =? 0)%Z
      then set_task_complete true (set_test_results (Some MSG_PASSED) state)
      else set_task_complete false (set_test_results (Some (tests_failed_msg out err)) state)
  | TestRaise e =>
      set_task_complete false (set_test_results (Some (MSG_TEST_EXC ++ e)) state)
  end.

Definition _self_fix_node (state : AgentState) : AgentState :=
  set_attempt_count (attempt_count state + 1) state.

Definition _should_test (state : AgentState) : string :=
  if truthy_opt (current_code state) then "test" else "end".

Definition _should_continue_fixing (state : AgentState) : string :=
  if task_complete state then "end"
  else if (attempt_count state <? max_attempts state)%Z then "fix" else "end".

(** ** The compiled graph of [_build_graph] *)

Inductive Node : Type :=
| plan | generate_code | run_tests | self_fix
| END                    (* LangGraph's END *)
| raised.                (* an exception left [workflow.invoke] *)

(** [add_conditional_edges("generate_code", _should_test, {...})] *)
Definition generate_code_edges (route : string) : Node :=
  if String.eqb route "test" then run_tests else END.

(** [add_conditional_edges("run_tests", _should_continue_fixing, {...})] *)
Definition run_tests_edges (route : string) : Node :=
  if String.eqb route "fix" then self_fix else END.

(** A configuration of the run: the node about to execute, the state, the
    content of the file at [parser_path] ([None]: absent), the prompts sent
    to the model so far, and the numbers of generation and test steps
    executed so far. *)
Record Config : Type := mkConfig {
  node : Node;
  st : AgentState;
  parser_file : option string;
  prompts_sent : list string;
  n_gen : nat;
  n_test : nat
}.

(** One node execution followed by the edge it selects; [None] once the
    run has left the graph.  LangGraph's recursion limit is not part of the
    graph: [invoke] below adds it. *)
Definition step (env : Env) (c : Config) : option Config :=
  match node c with
  | plan =>
      Some (mkConfig generate_code (st c) (parser_file c) (prompts_sent c)
              (n_gen c) (n_test c))
  | generate_code =>
      match _generate_code_node (env_read_csv env (n_gen c))
              (env_generate env (n_gen c)) (env_write env (n_gen c))
              (st c) (parser_file c) with
      | None =>
          Some (mkConfig raised (st c) (parser_file c) (prompts_sent c)
                  (S (n_gen c)) (n_test c))
      | Some (s', file', prompt) =>
          Some (mkConfig (generate_code_edges (_should_test s')) s' file'
                  (prompts_sent c ++ [prompt]) (S (n_gen c)) (n_test c))
      end
  | run_tests =>
      let s' := _run_tests_node (env_pytest env (n_test c)) (st c) in
      Some (mkConfig (run_tests_edges (_should_continue_fixing s')) s'
              (parser_file c) (prompts_sent c) (n_gen c) (S (n_test c)))
  | self_fix =>
      Some (mkConfig generate_code (_self_fix_node (st c)) (parser_file c)
              (prompts_sent c) (n_gen c) (n_test c))
  | END | raised => None
  end.

Fixpoint run_graph (fuel : nat) (env : Env) (c : Config) : Config :=
  match fuel with
  | O => c
  | S f => match step env c with
           | None => c
           | Some c' => run_graph f env c'
           end
  end.

(** [self.workflow.invoke(initial_state)]: LangGraph executes one node per
    super-step; after [recursion_limit] node executions, when one more node
    is due, it raises [GraphRecursionError] instead.  [run] passes no
    config, so the limit is the default of the installed LangGraph.  A run
    that stops on its own ends in [InvokeDone], at [END] or after a node
    raised. *)
Inductive InvokeResult : Type :=
| InvokeDone (c : Config)
| InvokeRecursionError (c : Config).

Fixpoint invoke (recursion_limit : nat) (env : Env) (c : Config) : InvokeResult :=
  match step env c with
  | None => InvokeDone c
  | Some c' =>
      match recursion_limit with
      | O => InvokeRecursionError c
      | S l => invoke l env c'
      end
  end.

(** ** [run] *)

(** [a / b] on paths written as plain strings, for [BASE_DIR]-relative
    paths of [config.py] whose parts are single names. *)
Definition path_join (a b : string) : string := a ++ "/" ++ b.

(** [pathlib.PurePosixPath] (Python 3.11): a root ([""], ["/"], or
    ["//"] for exactly two leading slashes) and the parts, the pieces
    between slashes without the empty ones and ["."]. *)
Record PurePath : Type := mkPurePath { pp_root : string; pp_parts : list string }.

Fixpoint split_slash (s : string) : list string :=
  match s with
  | EmptyString => [EmptyString]
  | String c r =>
      if Ascii.eqb c "/" then EmptyString :: split_slash r
      else match split_slash r with
           | [] => [String c EmptyString]
           | x :: xs => String c x :: xs
           end
  end.

(** [_Flavour.splitroot] of the posix flavour. *)
Definition path_root (s : string) : string :=
  match s with
  | String c1 r1 =>
      if Ascii.eqb c1 "/" then
        match r1 with
        | String c2 r2 =>
            if Ascii.eqb c2 "/" then
              match r2 with
              | String c3 _ => if Ascii.eqb c3 "/" then "/" else "//"
              | EmptyString => "//"
              end
            else "/"
        | EmptyString => "/"
        end
      else EmptyString
  | EmptyString => EmptyString
  end.

Definition keep_part (x : string) : bool :=
  negb (String.eqb x EmptyString) && negb (String.eqb x ".").

(** [PurePosixPath(s)] *)
Definition pure_path (s : string) : PurePath :=
  mkPurePath (path_root s) (filter keep_part (split_slash s)).

(** [p / s]: a right-hand side with a root replaces the left one. *)
Definition path_div (p : PurePath) (s : string) : PurePath :=
  let q := pure_path s in
  if String.eqb (pp_root q) EmptyString
  then mkPurePath (pp_root p) (pp_parts p ++ pp_parts q)
  else q.

Fixpoint join_slash (l : list string) : string :=
  match l with
  | [] => EmptyString
  | [x] => x
  | x :: xs => x ++ "/" ++ join_slash xs
  end.

(** [str(p)] *)
Definition path_str (p : PurePath) : string :=
  match pp_parts p with
  | [] => if String.eqb (pp_root p) EmptyString then "." else pp_root p
  | _ => pp_root p ++ join_slash (pp_parts p)
  end.

Fixpoint no_slash (s : string) : bool :=
  match s with
  | EmptyString => true
  | String c r => negb (Ascii.eqb c "/") && no_slash r
  end.

(** [run]'s initial state; [cwd] is [os.getcwd()], which [Path.cwd()]
    parses. *)
Definition initial_state (cwd target_bank : string) (max_attempts : Z) : AgentState :=
  {| target_bank := target_bank;
     parser_path := path_str (path_div (path_div (pure_path cwd) "custom_parsers")
                                (target_bank ++ "_parser.py"));
     csv_path := path_str (path_div (path_div (path_div (pure_path cwd) "data") target_bank)
                             (target_bank ++ "_sample.csv"));
     attempt_count := 1;
     max_attempts := max_attempts;
     task_complete := false;
     current_code := None;
     test_results := None |}.

(** The configuration [workflow.invoke(initial_state)] starts from;
    [file0] is what the file at [parser_path] holds beforehand. *)
Definition initial_config (cwd target_bank : string) (max_attempts : Z)
    (file0 : option string) : Config :=
  mkConfig plan (initial_state cwd target_bank max_attempts) file0 [] 0 0.

Inductive reachable (env : Env) (c0 : Config) : Config -> Prop :=
| reach_init : reachable env c0 c0
| reach_step : forall c c', reachable env c0 c -> step env c = Some c' ->
    reachable env c0 c'.

(** ** [main] and its [argparse] parser

    [argparse.ArgumentParser] of Python 3.11 with what [main] builds: the
    [-h]/[--help] action added by the constructor and two [store] actions,
    [--target] and [--api-key], both required; no positionals,
    [prefix_chars = "-"], [allow_abbrev], no [fromfile_prefix_chars], no
    mutually exclusive groups, [type] and [choices] unset.  Strings are
    ASCII. *)

Inductive ActionKind : Type := HelpAction | StoreAction.

Record Action : Type := mkAction {
  act_kind : ActionKind;
  act_option_strings : list string;
  act_dest : option string;             (* [None]: [SUPPRESS] *)
  act_required : bool
}.

(** [nargs]: [0] for [_HelpAction], [None] (one argument) for [store]. *)
Definition act_nargs (a : Action) : nat :=
  match act_kind a with HelpAction => 0 | StoreAction => 1 end.

Definition join_with (sep : string) (l : list string) : string :=
  match l with
  | [] => EmptyString
  | x :: xs => fold_left (fun acc y => acc ++ sep ++ y) xs x
  end.

(** [_get_action_name] of an optional: its option strings joined by [/]. *)
Definition action_name (a : Action) : string := join_with "/" (act_option_strings a).

(** The actions of [main]'s parser, in [parser._actions] order. *)
Definition main_actions : list Action :=
  [ mkAction HelpAction ["-h"; "--help"] None false;
    mkAction StoreAction ["--target"] (Some "target") true;
    mkAction StoreAction ["--api-key"] (Some "api_key") true ].

(** [parser._option_string_actions], in insertion order. *)
Definition option_string_actions (acts : list Action) : list (string * Action) :=
  flat_map (fun a => map (fun o => (o, a)) (act_option_strings a)) acts.

Definition lookup_option (acts : list Action) (o : string) : option Action :=
  option_map snd (find (fun p => String.eqb (fst p) o) (option_string_actions acts)).

(** [s.startswith(p)] *)
Definition is_prefix (p s : string) : bool :=
  match strip_prefix p s with Some _ => true | None => false end.

Definition is_digit (c : ascii) : bool :=
  (48 <=? nat_of_ascii c)%nat && (nat_of_ascii c <=? 57)%nat.

Fixpoint span_digits (s : string) : nat * string :=
  match s with
  | String c r => if is_digit c then let (n, t) := span_digits r in (S n, t) else (0%nat, s)
  | EmptyString => (0%nat, EmptyString)
  end.

(** [$]: the end of the string, or a final newline. *)
Definition regex_end (s : string) : bool :=
  String.eqb s EmptyString || String.eqb s nl.

(** [parser._negative_number_matcher]: [^-\d+$|^-\d*\.\d+$]. *)
Definition negative_number_like (s : string) : bool :=
  match s with
  | String c r =>
      Ascii.eqb c "-" &&
      (let (n, t) := span_digits r in
       ((0 <? n)%nat && regex_end t) ||
       match t with
       | String d u =>
           Ascii.eqb d "." && (let (m, v) := span_digits u in (0 <? m)%nat && regex_end v)
       | EmptyString => false
       end)
  | EmptyString => false
  end.

(** [parser._has_negative_number_optionals] *)
Definition has_negative_number_optionals (acts : list Action) : bool :=
  existsb negative_number_like (flat_map act_option_strings acts).

(** What [_parse_optional] returns: [None] (a positional), or the tuple
    [(action, option_string, explicit_arg)], [action] being [None] for an
    unknown option. *)
Inductive Optional : Type :=
| Positional
| OptionalTuple (action : option Action) (option_string : string)
                (explicit_arg : option string).

(** The failures [parser.error] reports (exit status 2). *)
Inductive ArgError : Type :=
| ErrAmbiguous (option : string) (matches : list string)
| ErrExpectedOne (action_name : string)
| ErrIgnoredExplicit (action_name : string) (explicit_arg : string)
| ErrRequired (names : list string)
| ErrUnrecognized (extras : list string).

Definition tuple_option_string (t : Optional) : string :=
  match t with Positional => EmptyString | OptionalTuple _ o _ => o end.

(** [s[i:]] *)
Definition drop (i : nat) (s : string) : string := substring i (String.length s - i) s.

(** [_get_option_tuples], for an [option_string] of length at least 2
    starting with [-]. *)
Definition get_option_tuples (acts : list Action) (s : string) : list Optional :=
  match s with
  | String _ (String c2 _) =>
      if Ascii.eqb c2 "-" then
        let '(prefix, explicit) :=
          match cut_first "=" s with
          | Some (p, e) => (p, Some e)
          | None => (s, None)
          end in
        map (fun p => OptionalTuple (Some (snd p)) (fst p) explicit)
            (filter (fun p => is_prefix prefix (fst p)) (option_string_actions acts))
      else
        flat_map (fun p =>
                    if String.eqb (fst p) (substring 0 2 s)
                    then [OptionalTuple (Some (snd p)) (fst p) (Some (drop 2 s))]
                    else if is_prefix s (fst p)
                    then [OptionalTuple (Some (snd p)) (fst p) None]
                    else [])
                 (option_string_actions acts)
  | _ => []
  end.

(** [_parse_optional]; [inl] is the ambiguity error. *)
Definition parse_optional (acts : list Action) (s : string) : ArgError + Optional :=
  match s with
  | EmptyString => inr Positional
  | String c _ =>
      if negb (Ascii.eqb c "-") then inr Positional else
      match lookup_option acts s with
      | Some a => inr (OptionalTuple (Some a) s None)
      | None =>
          if (String.length s =? 1)%nat then inr Positional else
          let by_equals :=
            match cut_first "=" s with
            | Some (o, e) =>
                match lookup_option acts o with
                | Some a => Some (OptionalTuple (Some a) o (Some e))
                | None => None
                end
            | None => None
            end in
          match by_equals with
          | Some t => inr t
          | None =>
              match get_option_tuples acts s with
              | (_ :: _ :: _) as ts => inl (ErrAmbiguous s (map tuple_option_string ts))
              | [t] => inr t
              | [] =>
                  if negative_number_like s && negb (has_negative_number_optionals acts)
                  then inr Positional
                  else if contains " " s then inr Positional
                  else inr (OptionalTuple None s None)
              end
          end
      end
  end.

(** One letter of [arg_strings_pattern]: [A], [O] (with its tuple) or
    [-] for the first [--]. *)
Inductive Pat : Type :=
| PA
| PO (action : option Action) (option_string : string) (explicit_arg : option string)
| PDash.

(** The loop of [_parse_known_args] building the pattern: after the first
    [--] every string is an argument. *)
Fixpoint classify (acts : list Action) (argv : list string) : ArgError + list Pat :=
  match argv with
  | [] => inr []
  | s :: rest =>
      if String.eqb s "--" then inr (PDash :: map (fun _ => PA) rest)
      else match parse_optional acts s with
           | inl e => inl e
           | inr o =>
               match classify acts rest with
               | inl e => inl e
               | inr ps =>
                   inr (match o with
                        | Positional => PA
                        | OptionalTuple a os x => PO a os x
                        end :: ps)
               end
           end
  end.

Definition single_dash (o : string) : bool :=
  match o with String _ (String c _) => negb (Ascii.eqb c "-") | _ => false end.

(** The [while True] loop of [consume_optional] for an option with an
    action: the [(action, args)] pairs to take, and the strings left.
    An option taking one argument and no explicit one takes the next
    string if its pattern letter is [A] ([(A)]: optionals admit no [--]).
    Each round of the single-dash chaining ([-hh]) removes one character
    of the explicit argument, so [fuel] beyond its length is never used. *)
Fixpoint consume_optional (fuel : nat) (acts : list Action) (a : Action) (o : string)
    (explicit : option string) (rest : list (string * Pat))
    (acc : list (Action * list string))
    : ArgError + (list (Action * list string) * list (string * Pat)) :=
  match fuel with
  | O => inr (acc, rest)
  | S f =>
      match explicit with
      | Some x =>
          match act_nargs a with
          | O =>
              if single_dash o && negb (String.eqb x EmptyString) then
                let o' := ("-" ++ substring 0 1 x)%string in
                let x' := drop 1 x in
                match lookup_option acts o' with
                | Some a' =>
                    consume_optional f acts a' o'
                      (if String.eqb x' EmptyString then None else Some x') rest
                      (acc ++ [(a, [])])%list
                | None => inl (ErrIgnoredExplicit (action_name a) x)
                end
              else inl (ErrIgnoredExplicit (action_name a) x)
          | 1 => inr ((acc ++ [(a, [x])])%list, rest)
          | _ => inl (ErrIgnoredExplicit (action_name a) x)
          end
      | None =>
          match act_nargs a with
          | O => inr ((acc ++ [(a, [])])%list, rest)
          | _ =>
              match rest with
              | (v, PA) :: rest' => inr ((acc ++ [(a, [v])])%list, rest')
              | _ => inl (ErrExpectedOne (action_name a))
              end
          end
      end
  end.

(** A value stored in the namespace: a string, or the list [_get_values]
    builds when no string is left ([--target=--]). *)
Inductive ArgValue : Type :=
| VStr (s : string)
| VList (l : list string).

(** [_get_values] for [nargs] [None]: the first [--] is removed, then a
    single string is the value, anything else a list. *)
Fixpoint remove_first (x : string) (l : list string) : list string :=
  match l with
  | [] => []
  | y :: ys => if String.eqb x y then ys else y :: remove_first x ys
  end.

Definition get_values (args : list string) : ArgValue :=
  match remove_first "--" args with
  | [v] => VStr v
  | l => VList l
  end.

(** The [Namespace], as its attributes in order. *)
Definition Namespace : Type := list (string * option ArgValue).

Fixpoint setattr (d : string) (v : option ArgValue) (ns : Namespace) : Namespace :=
  match ns with
  | [] => [(d, v)]
  | (d', v') :: ns' => if String.eqb d d' then (d, v) :: ns' else (d', v') :: setattr d v ns'
  end.

Definition getattr (ns : Namespace) (d : string) : option (option ArgValue) :=
  option_map snd (find (fun p => String.eqb (fst p) d) ns).

(** The defaults [parse_known_args] puts in a fresh [Namespace]. *)
Definition default_namespace (acts : list Action) : Namespace :=
  fold_left (fun ns a => match act_dest a with Some d => setattr d None ns | None => ns end)
            acts [].

(** [take_action] for each pair in order; [None] when [_HelpAction]
    prints the help and exits with status 0. *)
Fixpoint take_actions (tuples : list (Action * list string)) (ns : Namespace)
    (seen : list string) : option (Namespace * list string) :=
  match tuples with
  | [] => Some (ns, seen)
  | (a, args) :: ts =>
      match act_kind a with
      | HelpAction => None
      | StoreAction =>
          take_actions ts
            (match act_dest a with
             | Some d => setattr d (Some (get_values args)) ns
             | None => ns
             end)
            (seen ++ [action_name a])%list
      end
  end.

Inductive ConsumeResult : Type :=
| CDone (ns : Namespace) (seen : list string) (extras : list string)
| CError (e : ArgError)
| CHelp.

(** The consumption loop of [_parse_known_args]: with no positionals,
    every string that is not an option or an option's argument goes to
    [extras], as does an unknown option. *)
Fixpoint consume (fuel : nat) (acts : list Action) (items : list (string * Pat))
    (ns : Namespace) (seen extras : list string) : ConsumeResult :=
  match fuel with
  | O => CDone ns seen (extras ++ map fst items)%list
  | S f =>
      match items with
      | [] => CDone ns seen extras
      | (tok, PO (Some a) o x) :: rest =>
          let xlen := match x with Some s => String.length s | None => 0%nat end in
          match consume_optional (S xlen) acts a o x rest [] with
          | inl e => CError e
          | inr (tuples, rest') =>
              match take_actions tuples ns seen with
              | None => CHelp
              | Some (ns', seen') => consume f acts rest' ns' seen' extras
              end
          end
      | (tok, _) :: rest => consume f acts rest ns seen (extras ++ [tok])%list
      end
  end.

Inductive ParseResult : Type :=
| ParseOk (ns : Namespace)
| ParseError (e : ArgError)
| ParseHelp.

(** [parser.parse_args(argv)]: the pattern, the consumption, the check of
    required actions, then the check for unrecognized strings. *)
Definition parse_args (acts : list Action) (argv : list string) : ParseResult :=
  match classify acts argv with
  | inl e => ParseError e
  | inr pats =>
      match consume (S (List.length argv)) acts (combine argv pats)
              (default_namespace acts) [] [] with
      | CError e => ParseError e
      | CHelp => ParseHelp
      | CDone ns seen extras =>
          let missing := map action_name
                           (filter (fun a => act_required a &&
                                             negb (existsb (String.eqb (action_name a)) seen))
                                   acts) in
          match missing with
          | _ :: _ => ParseError (ErrRequired missing)
          | [] =>
              match extras with
              | _ :: _ => ParseError (ErrUnrecognized extras)
              | [] => ParseOk ns
              end
          end
      end
  end.

(** [def run(self, target_bank, max_attempts: int = 3)] *)
Definition run_default_max_attempts : Z := 3.

Inductive MainOutcome : Type :=
| MainUsageError (e : ArgError)          (* exit status 2 *)
| MainHelp                               (* exit status 0 *)
| MainAttributeError (attr : string)
| MainRun (api_key target : option ArgValue) (max_attempts : Z).

(** [main()]: [BankStatementParserAgent(api_key=args.api_key)] then
    [agent.run(target_bank=args.target)]. *)
Definition main (argv : list string) : MainOutcome :=
  match parse_args main_actions argv with
  | ParseError e => MainUsageError e
  | ParseHelp => MainHelp
  | ParseOk ns =>
      match getattr ns "api_key" with
      | None => MainAttributeError "api_key"
      | Some k =>
          match getattr ns "target" with
          | None => MainAttributeError "target"
          | Some t => MainRun k t run_default_max_attempts
          end
      end
  end.

(** A string made of whitespace only. *)
Fixpoint all_space (s : string) : bool :=
  match s with
  | EmptyString => true
  | String c s' => is_space c && all_space s'
  end.

(** The environment that agrees with [env] except that the model always
    answers with the empty text. *)
Definition env_reply_empty (env : Env) : Env :=
  mkEnv (env_read_csv env) (fun _ _ => GenText EmptyString) (env_pytest env)
        (env_write env).

(** [returncode == 0] *)
Definition test_passed (o : TestOutcome) : bool :=
  match o with Completed rc _ _ => (rc =? 0)%Z | TestRaise _ => false end.

(** The number of node executions a configuration can still perform. *)
Definition potential (c : Config) : nat :=
  let d := Z.to_nat (max_attempts (st c) - attempt_count (st c)) in
  match node c with
  | plan => 3 * d + 3
  | generate_code => 3 * d + 2
  | run_tests => 3 * d + 1
  | self_fix => 3 * d
  | END | raised => 0
  end.

(** The bookkeeping invariant of a run with limit [L]. *)
Definition loop_inv (L : Z) (c : Config) : Prop :=
  let a := attempt_count (st c) in
  max_attempts (st c) = L /\
  (1 <= a)%Z /\
  (a <= L \/ a = 1)%Z /\
  (node c = self_fix -> a < L)%Z /\
  (node c = plan -> a = 1%Z /\ n_gen c = 0%nat) /\
  (node c = generate_code -> Z.of_nat (n_gen c) = a - 1)%Z /\
  (node c <> plan -> node c <> generate_code -> Z.of_nat (n_gen c) = a) /\
  (task_complete (st c) = true -> node c = END).

(** ** Sample inputs *)

Definition sample_columns : list string :=
  ["Date"; "Description"; "Debit Amt"; "Credit Amt"; "Balance"].

Definition sample_reply : string :=
  "```python" ++ nl ++ "def parse(pdf_path): ..." ++ nl ++ "```".

(** Scenario B of the spec: valid code every cycle, the first two test
    runs fail and the third passes. *)
Definition scenario_B_env : Env :=
  mkEnv (fun _ => Some sample_columns) (fun _ _ => GenText sample_reply)
        (fun k => if (k <? 2)%nat then Completed 1 "F" "E" else Completed 0 "" "")
        (fun _ => WriteOk).

(** Valid code every cycle, every test run exits with status 1. *)
Definition failing_env : Env :=
  mkEnv (fun _ => Some sample_columns) (fun _ _ => GenText sample_reply)
        (fun _ => Completed 1 "F" "E") (fun _ => WriteOk).

(** A valid reply every cycle, but [f.write] raises before any character
    reaches the file (an encoding error). *)
Definition write_fail_env : Env :=
  mkEnv (fun _ => Some sample_columns) (fun _ _ => GenText sample_reply)
        (fun _ => Completed 1 "F" "E") (fun _ => WriteRaise "UnicodeEncodeError" 0).

Definition env_with_columns (cols : list string) : Env :=
  mkEnv (fun _ => Some cols) (env_generate scenario_B_env) (env_pytest scenario_B_env)
        (fun _ => WriteOk).

Definition sample_generate_config : Config :=
  mkConfig generate_code (initial_state "/work" "icici" 3) None [] 0 0.

Definition sample_tests_config : Config :=
  mkConfig run_tests (initial_state "/work" "icici" 3) (Some "code") [] 1 0.

Definition overlapping_fence_text : string := "```pythonab````python".

(** The number of node executions a run in which generation always
    succeeds and every test run fails has performed when it reaches [c]. *)
Definition failing_progress (c : Config) : Z :=
  let a := attempt_count (st c) in
  match node c with
  | plan => 0
  | generate_code => 3 * a - 2
  | run_tests => 3 * a - 1
  | self_fix | END | raised => 3 * a
  end%Z.

(** The bookkeeping of a run in which generation always succeeds and
    every test run fails. *)
Definition failing_inv (c : Config) : Prop :=
  let a := attempt_count (st c) in
  node c <> raised /\ task_complete (st c) = false /\
  (node c = END -> max_attempts (st c) <= a)%Z /\
  ((node c = plan \/ node c = generate_code \/ node c = run_tests) ->
     Z.of_nat (n_test c) = a - 1)%Z /\
  ((node c = self_fix \/ node c = END) -> Z.of_nat (n_test c) = a).

(** ** [config.py]: paths, setup validation and directory creation *)

Module ConfigPy.

(** The file system as the code observes it: what each path names. *)
Inductive Kind : Type := KDir | KFile.

Definition FS : Type := string -> option Kind.

Definition fs_add (p : string) (k : Kind) (fs : FS) : FS :=
  fun q => if String.eqb q p then Some k else fs q.


Definition is_dir (fs : FS) (p : string) : bool :=
  match fs p with Some KDir => true | _ => false end.

(** Index of the last [/] of a string. *)
Fixpoint last_slash (s : string) : option nat :=
  match s with
  | EmptyString => None
  | String c s' =>
      match last_slash s' with
      | Some i => Some (S i)
      | None => if Ascii.eqb c "/"%char then Some 0 else None
      end
  end.

(** [PurePosixPath.parent] on the normalised paths the code builds. *)
Definition parent (p : string) : string :=
  match last_slash p with
  | None => "."
  | Some 0 => "/"
  | Some i => substring 0 i p
  end.

(** [os.mkdir(p)] *)
Definition os_mkdir (p : string) (fs : FS) : exc FS :=
  match fs p with
  | Some _ => Raise "FileExistsError"
  | None =>
      match fs (parent p) with
      | Some KDir => Ret (fs_add p KDir fs)
      | Some KFile => Raise "NotADirectoryError"
      | None => Raise "FileNotFoundError"
      end
  end.

(** [Path(p).mkdir(parents=..., exist_ok=...)] (pathlib): [fuel] bounds
    the walk up the parents; [String.length p] is enough. *)
Fixpoint path_mkdir_fuel (fuel : nat) (parents exist_ok : bool) (p : string)
    (fs : FS) : exc FS :=
  match os_mkdir p fs with
  | Ret fs' => Ret fs'
  | Raise m =>
      if String.eqb m "FileNotFoundError" then
        if negb parents || String.eqb (parent p) p then Raise m
        else match fuel with
             | O => Raise m
             | S f =>
                 match path_mkdir_fuel f true true (parent p) fs with
                 | Raise m' => Raise m'
                 | Ret fs1 => path_mkdir_fuel f false exist_ok p fs1
                 end
             end
      else if negb exist_ok || negb (is_dir fs p) then Raise m
      else Ret fs
  end.

Definition path_mkdir (parents exist_ok : bool) (p : string) (fs : FS) : exc FS :=
  path_mkdir_fuel (S (String.length p)) parents exist_ok p fs.

Definition exc_bind {A B} (x : exc A) (f : A -> exc B) : exc B :=
  match x with Ret a => f a | Raise m => Raise m end.

(** Class attributes of [Config]; [base] is [BASE_DIR]. *)
Definition SUPPORTED_BANKS : list string := ["icici"; "sbi"; "hdfc"; "axis"; "kotak"].

Definition REQUIRED_COLUMNS : list string :=
  ["Date"; "Description"; "Debit Amt"; "Credit Amt"; "Balance"].

Definition DATA_DIR (base : string) : string := path_join base "data".
Definition PARSERS_DIR (base : string) : string := path_join base "custom_parsers".
Definition TESTS_DIR (base : string) : string := path_join base "tests".





Fixpoint mkdir_all (parents exist_ok : bool) (ps : list string) (fs : FS) : exc FS :=
  match ps with
  | [] => Ret fs
  | p :: ps' => exc_bind (path_mkdir parents exist_ok p fs) (mkdir_all parents exist_ok ps')
  end.

(** [create_directories] *)
Definition create_directories (base : string) (fs : FS) : exc FS :=
  exc_bind (mkdir_all true true [DATA_DIR base; PARSERS_DIR base; TESTS_DIR base] fs)
    (mkdir_all false true (map (fun bank => path_join (DATA_DIR base) bank) SUPPORTED_BANKS)).



End ConfigPy.

(** ** [test_parser.py]: the paths the test suite loads *)

(** The [bank_name] fixture. *)
Definition test_bank_name : string := "icici".

(** [Path.cwd() / f"custom_parsers/{bank_name}_parser.py"] *)
Definition test_parser_path (cwd : string) : string :=
  path_str (path_div (pure_path cwd) ("custom_parsers/" ++ test_bank_name ++ "_parser.py")).

(** [expected_cols] of [test_parser_contract] *)
Definition test_expected_cols : list string :=
  ["Date"; "Description"; "Debit Amt"; "Credit Amt"; "Balance"].

(** ** [custom_parsers/icici_parser.py] *)

Module IciciParser.

Section Parse.

(** [float(s)] on a string: [None] when it raises [ValueError]. *)
Variable Flt : Type.
Variable py_float : string -> option Flt.

(** A [pdfplumber] table cell: a string, or [None] for an empty cell. *)
Definition Cell : Type := option string.

(** [str(cell)] *)
Definition py_str (c : Cell) : string :=
  match c with Some s => s | None => "None" end.

(** [s.replace(",", "")] *)
Fixpoint remove_commas (s : string) : string :=
  match s with
  | EmptyString => EmptyString
  | String c s' => if Ascii.eqb c ","%char then remove_commas s' else String c (remove_commas s')
  end.

(** [float(str(x).replace(",", "").strip()) if x and str(x).strip() else None] *)
Definition amount (x : Cell) : exc (option Flt) :=
  if truthy_opt x && truthy (strip (py_str x)) then
    match py_float (strip (remove_commas (py_str x))) with
    | Some f => Ret (Some f)
    | None => Raise "ValueError"
    end
  else Ret None.

(** The dictionary [row_data]. *)
Record RowData : Type := mkRowData {
  rd_date : string;
  rd_description : string;
  rd_debit : option Flt;
  rd_credit : option Flt;
  rd_balance : option Flt
}.

(** The body of [for row in table[1:]]: [None] when the row is skipped
    (wrong length, or a [ValueError] caught by the inner [try]).  The
    diagnostics it prints are not modelled. *)
Definition process_row (row : list Cell) : option RowData :=
  match row with
  | [date; description; debit; credit; balance] =>
      let date := strip (py_str date) in
      let description := strip (py_str description) in
      match amount debit, amount credit, amount balance with
      | Ret d, Ret c, Ret b => Some (mkRowData date description d c b)
      | _, _, _ => None
      end
  | _ => None
  end.

Definition process_table (table : list (list Cell)) : list RowData :=
  match table with
  | [] => []
  | _ :: rows =>
      flat_map (fun row => match process_row row with Some r => [r] | None => [] end) rows
  end.

(** [pdfplumber.open(pdf_path)]: missing file, another error, or pages,
    each page given by [page.extract_tables()]. *)
Inductive PdfOpen : Type :=
| PdfMissing
| PdfError (msg : string)
| PdfPages (pages : list (list (list (list Cell)))).

(** [pd.DataFrame(all_data)] for a list of dicts: the columns are the keys
    in first-seen order, none for an empty list. *)
Record Frame : Type := mkFrame {
  columns : list string;
  frame_rows : list RowData
}.

Definition row_keys : list string :=
  ["Date"; "Description"; "Debit Amt"; "Credit Amt"; "Balance"].

Definition DataFrame (all_data : list RowData) : Frame :=
  mkFrame (match all_data with [] => [] | _ => row_keys end) all_data.

(** [parse(pdf_path)]: [Ret None] after a [FileNotFoundError]. *)
Definition parse (pdf : PdfOpen) : exc (option Frame) :=
  match pdf with
  | PdfMissing => Ret None
  | PdfError m => Raise m
  | PdfPages pages =>
      Ret (Some (DataFrame (flat_map (flat_map process_table) pages)))
  end.

(** The rows [parse] looks at: after the first row of each non-empty
    table, with exactly five cells. *)
Definition candidate_rows (pages : list (list (list (list Cell)))) : list (list Cell) :=
  flat_map (flat_map (fun table =>
    filter (fun row => (List.length row =? 5)%nat) (tl table))) pages.

End Parse.

End IciciParser.

(** [float] on strings for sample parser runs: it fails only on the empty string. *)
Definition sample_float (s : string) : option nat :=
  if String.eqb s EmptyString then None else Some 0%nat.

(** * Proofs *)

(** ** Strings *)

Section StringFacts.

Lemma str_app_assoc (x y z : string) : (x ++ y) ++ z = x ++ (y ++ z).
Proof. induction x as [|c x IH]; simpl; [reflexivity | now rewrite IH]. Qed.

Lemma str_app_length (x y : string) :
  String.length (x ++ y) = (String.length x + String.length y)%nat.
Proof. induction x as [|c x IH]; simpl; [reflexivity | now rewrite IH]. Qed.

Lemma str_app_inj (x y x' y' : string) :
  x ++ y = x' ++ y' -> String.length x = String.length x' -> x = x' /\ y = y'.
Proof.
  revert x'. induction x as [|c x IH]; intros [|c' x'] Heq Hlen;
    simpl in *; try discriminate; auto.
  injection Heq as -> Heq. injection Hlen as Hlen.
  destruct (IH x' Heq Hlen) as [-> ->]. auto.
Qed.

Lemma strip_prefix_spec (p s r : string) :
  strip_prefix p s = Some r <-> s = p ++ r.
Proof.
  revert s. induction p as [|c p IH]; intros s; simpl.
  - split; [now intros [= ->] | now intros ->].
  - destruct s as [|d s].
    + split; [discriminate | discriminate].
    + destruct (Ascii.eqb c d) eqn:E.
      * apply Ascii.eqb_eq in E as ->. rewrite IH.
        split; [now intros -> | now intros [= ->]].
      * split; [discriminate |].
        intros [= Hc _]. subst. now rewrite Ascii.eqb_refl in E.
Qed.

Lemma cut_first_sound (sep s a b : string) :
  cut_first sep s = Some (a, b) -> s = a ++ sep ++ b.
Proof.
  revert a b. induction s as [|c s IH]; intros a b H; simpl in H.
  - destruct (strip_prefix sep "") eqn:E; [|discriminate].
    injection H as <- <-. now apply strip_prefix_spec in E.
  - destruct (strip_prefix sep (String c s)) eqn:E.
    + injection H as <- <-. now apply strip_prefix_spec in E.
    + destruct (cut_first sep s) as [[a' b']|] eqn:E'; [|discriminate].
      injection H as <- <-. simpl. now rewrite (IH a' b' eq_refl).
Qed.

Lemma cut_first_complete (sep a' b' : string) :
  exists a b, cut_first sep (a' ++ sep ++ b') = Some (a, b) /\
              (String.length a <= String.length a')%nat.
Proof.
  induction a' as [|c a' IH]; simpl.
  - destruct sep as [|c sep]; simpl.
    + exists EmptyString, b'. destruct b'; split; reflexivity.
    + assert (Hp : strip_prefix (String c sep) (String c sep ++ b') = Some b')
        by now apply strip_prefix_spec.
      simpl in Hp. rewrite Hp. eexists _, _. split; [reflexivity | simpl; lia].
  - destruct (strip_prefix sep (String c (a' ++ sep ++ b'))).
    + eexists _, _. split; [reflexivity | simpl; lia].
    + destruct IH as (a & b & -> & Hle).
      eexists _, _. split; [reflexivity | simpl; lia].
Qed.

(** [cut_first] finds exactly the spec's first occurrence. *)
Lemma cut_first_first_occurrence (sep s a b : string) :
  cut_first sep s = Some (a, b) <-> first_occurrence sep s a b.
Proof.
  split.
  - intros H. split; [now apply cut_first_sound|].
    intros pre' post' ->.
    destruct (cut_first_complete sep pre' post') as (a2 & b2 & H2 & Hle).
    rewrite H in H2. injection H2 as -> ->. exact Hle.
  - intros [-> Hmin].
    destruct (cut_first_complete sep a b) as (a2 & b2 & H2 & Hle).
    pose proof (cut_first_sound _ _ _ _ H2) as Heq.
    pose proof (Hmin a2 b2 Heq) as Hge.
    apply str_app_inj in Heq as [<- Hy]; [|lia].
    apply str_app_inj in Hy as [_ <-]; [exact H2 | reflexivity].
Qed.

Lemma cut_first_none (sep s : string) :
  cut_first sep s = None <-> forall a b, s <> a ++ sep ++ b.
Proof.
  split.
  - intros H a b ->. destruct (cut_first_complete sep a b) as (? & ? & H' & _).
    congruence.
  - intros H. destruct (cut_first sep s) as [[a b]|] eqn:E; [|reflexivity].
    exfalso. exact (H a b (cut_first_sound _ _ _ _ E)).
Qed.

Lemma index0_split (s sep : string) :
  index (split s sep) 0 =
  Ret (match cut_first sep s with Some (a, _) => a | None => s end).
Proof.
  unfold split, index. simpl. destruct (cut_first sep s) as [[a b]|]; reflexivity.
Qed.

Lemma index1_split (s sep a b : string) :
  sep <> EmptyString -> cut_first sep s = Some (a, b) ->
  index (split s sep) 1 =
  Ret (match cut_first sep b with Some (a', _) => a' | None => b end).
Proof.
  intros Hsep H. pose proof (cut_first_sound _ _ _ _ H) as Hs.
  assert (Hlen : String.length s <> 0%nat).
  { rewrite Hs, !str_app_length. destruct sep; [congruence | simpl; lia]. }
  unfold split, index. destruct (String.length s) as [|k]; [congruence|].
  simpl. rewrite H. simpl. destruct (cut_first sep b) as [[a' b']|]; reflexivity.
Qed.

Lemma all_space_app (x y : string) :
  all_space (x ++ y) = all_space x && all_space y.
Proof.
  induction x as [|c x IH]; simpl; [reflexivity | now rewrite IH, andb_assoc].
Qed.

Lemma strip_all_space (s : string) : all_space s = true -> strip s = EmptyString.
Proof.
  intros H. unfold strip.
  assert (lstrip s = EmptyString) as ->; [|reflexivity].
  induction s as [|c s IH]; simpl in *; [reflexivity|].
  apply andb_true_iff in H as [-> H]. now apply IH.
Qed.

Lemma all_space_no_fence (s : string) :
  all_space s = true -> contains FENCE_OPEN s = false.
Proof.
  intros H. unfold contains.
  destruct (cut_first FENCE_OPEN s) as [[a b]|] eqn:E; [|reflexivity].
  apply cut_first_sound in E. subst s.
  rewrite !all_space_app in H. simpl in H.
  rewrite !andb_false_r in H. discriminate.
Qed.

(** An occurrence of the opening fence is an occurrence of the closing one. *)
Lemma no_close_no_open (s : string) :
  (forall a b, s <> a ++ FENCE_CLOSE ++ b) -> cut_first FENCE_OPEN s = None.
Proof.
  intros H. apply cut_first_none. intros a b Hs. apply (H a ("python" ++ b)).
  rewrite Hs. reflexivity.
Qed.

End StringFacts.

Lemma extract_code_fenced (text pre rest : string) :
  first_occurrence FENCE_OPEN text pre rest ->
  _extract_code text =
  Ret (Some (strip
    (match cut_first FENCE_CLOSE
             (match cut_first FENCE_OPEN rest with Some (a, _) => a | None => rest end)
     with Some (a, _) => a | None =>
       match cut_first FENCE_OPEN rest with Some (a, _) => a | None => rest end end))).
Proof.
  intros H. apply cut_first_first_occurrence in H.
  unfold _extract_code, contains. rewrite H.
  rewrite (index1_split text FENCE_OPEN pre rest) by (easy || exact H).
  rewrite index0_split. reflexivity.
Qed.

Lemma extract_code_unfenced (text : string) :
  contains FENCE_OPEN text = false ->
  _extract_code text = Ret (if truthy text then Some (strip text) else None).
Proof. intros H. unfold _extract_code. now rewrite H. Qed.

(** ** The generation node *)

Lemma generate_code_node_frame cols g w s f s' f' p :
  _generate_code_node cols g w s f = Some (s', f', p) ->
  attempt_count s' = attempt_count s /\ max_attempts s' = max_attempts s /\
  task_complete s' = task_complete s /\ p = build_prompt s.
Proof.
  unfold _generate_code_node. intros H.
  destruct cols; [|discriminate].
  destruct (g (build_prompt s)) as [e|text].
  - injection H as <- <- <-. repeat split.
  - destruct (_extract_code text) as [code|e].
    + destruct (truthy_opt code); [destruct w|]; injection H as <- <- <-; repeat split.
    + injection H as <- <- <-. repeat split.
Qed.

(** ** The control loop *)

Section Loop.

Variable env : Env.

Lemma step_attempt_count c c' :
  step env c = Some c' ->
  attempt_count (st c') =
  (attempt_count (st c) + match node c with self_fix => 1 | _ => 0 end)%Z /\
  max_attempts (st c') = max_attempts (st c).
Proof.
  unfold step. destruct (node c) eqn:Hn; intros H.
  - injection H as <-. simpl. lia.
  - destruct (_generate_code_node _ _ _ _ _) as [[[s' f'] p]|] eqn:G.
    + apply generate_code_node_frame in G as (Ha & Hm & _).
      injection H as <-. simpl. lia.
    + injection H as <-. simpl. lia.
  - injection H as <-. simpl.
    destruct (env_pytest env (n_test c)) as [rc out err|e]; simpl;
      [destruct (rc =? 0)%Z|]; simpl; lia.
  - injection H as <-. simpl. lia.
  - discriminate.
  - discriminate.
Qed.

Lemma run_tests_route c c' :
  node c = run_tests -> step env c = Some c' ->
  st c' = _run_tests_node (env_pytest env (n_test c)) (st c) /\
  node c' = run_tests_edges (_should_continue_fixing (st c')) /\
  n_gen c' = n_gen c /\ parser_file c' = parser_file c.
Proof.
  intros Hn. unfold step. rewrite Hn. intros H. injection H as <-. simpl. auto.
Qed.

Lemma run_tests_node_frame o s :
  attempt_count (_run_tests_node o s) = attempt_count s /\
  max_attempts (_run_tests_node o s) = max_attempts s /\
  task_complete (_run_tests_node o s) = test_passed o.
Proof.
  destruct o as [rc out err|e]; simpl; [destruct (rc =? 0)%Z|]; simpl; auto.
Qed.

Lemma loop_inv_step L c c' :
  loop_inv L c -> step env c = Some c' -> loop_inv L c'.
Proof.
  intros (HL & H1 & Hle & Hfix & Hplan & Hgen & Hoth & Hdone) H.
  unfold loop_inv. unfold step in H. destruct (node c) eqn:Hn.
  - injection H as <-. simpl.
    destruct (Hplan eq_refl) as [Ha Hg].
    assert (task_complete (st c) = false)
      by (destruct (task_complete (st c)); [now specialize (Hdone eq_refl)|reflexivity]).
    repeat split; try congruence; intros; try discriminate; lia.
  - assert (task_complete (st c) = false)
      by (destruct (task_complete (st c)); [now specialize (Hdone eq_refl)|reflexivity]).
    specialize (Hgen eq_refl).
    destruct (_generate_code_node _ _ _ _ _) as [[[s' f'] p]|] eqn:G.
    + apply generate_code_node_frame in G as (Ha & Hm & Ht & _).
      injection H as <-. simpl. rewrite Ha, Hm, Ht.
      unfold generate_code_edges.
      destruct (String.eqb _ "test"); simpl;
        repeat split; auto; intros; try discriminate; try congruence; lia.
    + injection H as <-. simpl.
      repeat split; auto; intros; try discriminate; try congruence; lia.
  - injection H as <-. simpl.
    specialize (Hoth ltac:(discriminate) ltac:(discriminate)).
    destruct (run_tests_node_frame (env_pytest env (n_test c)) (st c)) as (Ha & Hm & Ht).
    set (s' := _run_tests_node _ _) in *.
    rewrite Ha, Hm. unfold run_tests_edges, _should_continue_fixing.
    destruct (task_complete s') eqn:Hc; simpl.
    + repeat split; auto; intros; try discriminate; lia.
    + destruct (attempt_count s' <? max_attempts s')%Z eqn:Hlt; simpl.
      * apply Z.ltb_lt in Hlt. rewrite Ha, Hm, HL in Hlt.
        repeat split; auto; intros; try discriminate; lia.
      * repeat split; auto; intros; try discriminate; lia.
  - injection H as <-. simpl.
    specialize (Hfix eq_refl).
    specialize (Hoth ltac:(discriminate) ltac:(discriminate)).
    repeat split; auto; intros; try discriminate; try congruence; try lia.
    now specialize (Hdone ltac:(assumption)).
  - discriminate.
  - discriminate.
Qed.

Lemma potential_step L c c' :
  loop_inv L c -> step env c = Some c' -> (potential c' < potential c)%nat.
Proof.
  intros Hinv H. pose proof (loop_inv_step L c c' Hinv H) as Hinv'.
  destruct (step_attempt_count c c' H) as [Ha Hm].
  destruct Hinv as (HL & H1 & Hle & Hfix & _).
  unfold potential. rewrite Ha, Hm.
  unfold step in H. destruct (node c) eqn:Hn.
  - injection H as <-. simpl. lia.
  - destruct (_generate_code_node _ _ _ _ _) as [[[s' f'] p]|] eqn:G.
    + injection H as <-. simpl.
      unfold generate_code_edges. destruct (String.eqb _ "test"); simpl; lia.
    + injection H as <-. simpl. lia.
  - injection H as <-. simpl.
    unfold run_tests_edges. destruct (String.eqb _ "fix"); simpl; lia.
  - injection H as <-. simpl. specialize (Hfix eq_refl). lia.
  - discriminate.
  - discriminate.
Qed.

Lemma run_graph_exhausts L fuel c :
  loop_inv L c -> (potential c <= fuel)%nat -> step env (run_graph fuel env c) = None.
Proof.
  revert c. induction fuel as [|f IH]; intros c Hinv Hp; simpl.
  - destruct (step env c) as [c'|] eqn:H; [|reflexivity].
    pose proof (potential_step L c c' Hinv H). lia.
  - destruct (step env c) as [c'|] eqn:H; [|exact H].
    pose proof (potential_step L c c' Hinv H).
    apply IH; [exact (loop_inv_step L c c' Hinv H) | lia].
Qed.

Lemma run_graph_reachable c0 n c :
  reachable env c0 c -> reachable env c0 (run_graph n env c).
Proof.
  revert c. induction n as [|n IH]; intros c Hr; simpl; [exact Hr|].
  destruct (step env c) as [c'|] eqn:H; [|exact Hr].
  apply IH. now apply reach_step with c.
Qed.

Lemma reachable_loop_inv L c0 c :
  loop_inv L c0 -> reachable env c0 c -> loop_inv L c.
Proof.
  intros H0 Hr. induction Hr as [|c c' Hr IH Hs]; [exact H0|].
  exact (loop_inv_step L c c' IH Hs).
Qed.

Lemma initial_loop_inv cwd target L file0 :
  loop_inv L (initial_config cwd target L file0).
Proof.
  unfold loop_inv, initial_config, initial_state; simpl.
  repeat split; intros; try discriminate; try (right; reflexivity);
    try congruence; lia.
Qed.

Lemma step_none_run_graph c n : step env c = None -> run_graph n env c = c.
Proof. destruct n; simpl; [reflexivity|]. now intros ->. Qed.

Lemma reachable_initial_inv cwd target L file0 c :
  reachable env (initial_config cwd target L file0) c -> loop_inv L c.
Proof. apply reachable_loop_inv, initial_loop_inv. Qed.

Lemma run_graph_step c c' n :
  step env c = Some c' -> run_graph (S n) env c = run_graph n env c'.
Proof. intros H. simpl. rewrite H. reflexivity. Qed.

Lemma invoke_step c c' n :
  step env c = Some c' -> invoke (S n) env c = invoke n env c'.
Proof. intros H. simpl. rewrite H. reflexivity. Qed.

(** [invoke] executes [run_graph] for [recursion_limit] steps and then
    looks whether one more node is due. *)
Lemma invoke_run_graph b c :
  invoke b env c =
  match step env (run_graph b env c) with
  | None => InvokeDone (run_graph b env c)
  | Some _ => InvokeRecursionError (run_graph b env c)
  end.
Proof.
  revert c. induction b as [|b IH]; intros c; simpl.
  - destruct (step env c); reflexivity.
  - destruct (step env c) as [c'|] eqn:H; [apply IH|]. rewrite H. reflexivity.
Qed.

End Loop.

Lemma step_none_node env c : step env c = None -> node c = END \/ node c = raised.
Proof.
  unfold step. destruct (node c); try discriminate; auto.
  destruct (_generate_code_node _ _ _ _ _) as [[[? ?] ?]|]; discriminate.
Qed.

(** ** Claims about the control loop *)

(** C1. For every [attemptLimit >= 1] and every sequence of generation and
    verification outcomes, the run stops (no node is left to execute) after
    at most [3 * attemptLimit] node executions, having executed at most
    [attemptLimit] generation cycles, so within [attemptLimit + 1]. *)
Theorem run_terminates_within_limit (cwd target : string) (L : Z)
    (file0 : option string) (env : Env) (fuel : nat) :
  (1 <= L)%Z -> (3 * Z.to_nat L <= fuel)%nat ->
  let c := run_graph fuel env (initial_config cwd target L file0) in
  step env c = None /\ (n_gen c <= Z.to_nat L)%nat /\
  (n_gen c <= Z.to_nat L + 1)%nat.
Proof.
  intros HL Hf c.
  assert (Hstop : step env c = None).
  { apply (run_graph_exhausts env L); [apply initial_loop_inv|].
    unfold potential, initial_config, initial_state; simpl. lia. }
  assert (Hinv : loop_inv L c)
    by (apply (reachable_initial_inv env cwd target L file0),
        run_graph_reachable, reach_init).
  destruct Hinv as (HmL & H1 & Hle & _ & _ & _ & Hoth & _).
  destruct (step_none_node env c Hstop) as [Hn|Hn];
    (assert (Z.of_nat (n_gen c) = attempt_count (st c))
       by (apply Hoth; rewrite Hn; discriminate));
    repeat split; try assumption; lia.
Qed.

Lemma run_terminates_within_limit_witness :
  (1 <= 3)%Z /\ (3 * Z.to_nat 3 <= 9)%nat /\
  step scenario_B_env (run_graph 9 scenario_B_env (initial_config "/work" "icici" 3 None)) = None.
Proof.
  assert (H1 : (1 <= 3)%Z) by lia.
  assert (H2 : (3 * Z.to_nat 3 <= 9)%nat) by (simpl; lia).
  split; [exact H1|]. split; [exact H2|].
  exact (proj1 (run_terminates_within_limit "/work" "icici" 3 None
                  scenario_B_env 9 H1 H2)).
Defined.

(** C3 (counterexample). With [max_attempts = -1] the counter starts, and
    stays, at 1, above [attemptLimit + 1 = 0]. *)
Lemma attempt_bound_fails_negative_limit :
  let c := run_graph 10 failing_env (initial_config "/work" "icici" (-1) None) in
  step failing_env c = None /\ node c = END /\
  (attempt_count (st c) > max_attempts (st c) + 1)%Z.
Proof. vm_compute. repeat split; reflexivity. Qed.

(** C3 (amended). The counter starts at 1; a [self_fix] step adds exactly 1
    to it and every other step leaves it unchanged, so it never decreases;
    for [attemptLimit >= 0] it never exceeds [attemptLimit + 1], and for a
    negative [attemptLimit] it stays at 1. *)
Theorem attempt_count_bookkeeping (cwd target : string) (L : Z)
    (file0 : option string) (env : Env) :
  attempt_count (st (initial_config cwd target L file0)) = 1%Z /\
  (forall c c', reachable env (initial_config cwd target L file0) c ->
     step env c = Some c' ->
     attempt_count (st c') =
       (attempt_count (st c) + match node c with self_fix => 1 | _ => 0 end)%Z /\
     (attempt_count (st c) <= attempt_count (st c'))%Z) /\
  ((0 <= L)%Z -> forall c, reachable env (initial_config cwd target L file0) c ->
     (attempt_count (st c) <= L + 1)%Z) /\
  ((L < 0)%Z -> forall c, reachable env (initial_config cwd target L file0) c ->
     attempt_count (st c) = 1%Z).
Proof.
  split; [reflexivity|]. split; [|split].
  - intros c c' _ H. destruct (step_attempt_count env c c' H) as [Ha _].
    split; [exact Ha|]. rewrite Ha. destruct (node c); lia.
  - intros HL c Hr.
    destruct (reachable_initial_inv env cwd target L file0 c Hr)
      as (_ & _ & Hle & _). lia.
  - intros HL c Hr.
    destruct (reachable_initial_inv env cwd target L file0 c Hr)
      as (_ & H1 & Hle & _). lia.
Qed.

Lemma attempt_count_bookkeeping_witness :
  let c3 := run_graph 20 failing_env (initial_config "/work" "icici" 3 None) in
  let cn := run_graph 10 failing_env (initial_config "/work" "icici" (-1) None) in
  (0 <= 3)%Z /\ reachable failing_env (initial_config "/work" "icici" 3 None) c3 /\
  (attempt_count (st c3) <= 3 + 1)%Z /\
  (-1 < 0)%Z /\ reachable failing_env (initial_config "/work" "icici" (-1) None) cn /\
  attempt_count (st cn) = 1%Z.
Proof.
  intros c3 cn.
  assert (H0 : (0 <= 3)%Z) by lia.
  assert (Hn : (-1 < 0)%Z) by lia.
  assert (Hr3 : reachable failing_env (initial_config "/work" "icici" 3 None) c3)
    by (apply run_graph_reachable, reach_init).
  assert (Hrn : reachable failing_env (initial_config "/work" "icici" (-1) None) cn)
    by (apply run_graph_reachable, reach_init).
  split; [exact H0|]. split; [exact Hr3|].
  split; [exact (proj1 (proj2 (proj2 (attempt_count_bookkeeping "/work" "icici" 3 None
                                        failing_env))) H0 c3 Hr3)|].
  split; [exact Hn|]. split; [exact Hrn|].
  exact (proj2 (proj2 (proj2 (attempt_count_bookkeeping "/work" "icici" (-1) None
                                failing_env))) Hn cn Hrn).
Defined.

(** C9. For [attemptLimit >= 1] the counter never exceeds [attemptLimit]
    in any reachable configuration. *)
Theorem attempt_count_le_limit (cwd target : string) (L : Z)
    (file0 : option string) (env : Env) (c : Config) :
  (1 <= L)%Z -> reachable env (initial_config cwd target L file0) c ->
  (attempt_count (st c) <= L)%Z.
Proof.
  intros HL Hr.
  destruct (reachable_initial_inv env cwd target L file0 c Hr)
    as (_ & _ & Hle & _). lia.
Qed.

Lemma attempt_count_le_limit_witness :
  let c := run_graph 20 failing_env (initial_config "/work" "icici" 3 None) in
  (1 <= 3)%Z /\ reachable failing_env (initial_config "/work" "icici" 3 None) c /\
  (attempt_count (st c) <= 3)%Z.
Proof.
  intros c.
  assert (H1 : (1 <= 3)%Z) by lia.
  assert (Hr : reachable failing_env (initial_config "/work" "icici" 3 None) c)
    by (apply run_graph_reachable, reach_init).
  split; [exact H1|]. split; [exact Hr|].
  exact (attempt_count_le_limit "/work" "icici" 3 None failing_env c H1 Hr).
Defined.

(** C4. After a test step the run ends iff the tests passed or (they
    failed and [attempt_count >= max_attempts]), and goes to [self_fix]
    iff they failed and [attempt_count < max_attempts]; once
    [task_complete] holds, no node executes any more. *)
Theorem testing_transitions (cwd target : string) (L : Z)
    (file0 : option string) (env : Env) :
  (forall c c', node c = run_tests -> step env c = Some c' ->
     let passed := test_passed (env_pytest env (n_test c)) in
     (node c' = END <-> passed = true \/
        (passed = false /\ (max_attempts (st c) <= attempt_count (st c))%Z)) /\
     (node c' = self_fix <-> passed = false /\
        (attempt_count (st c) < max_attempts (st c))%Z) /\
     task_complete (st c') = passed) /\
  (forall c, reachable env (initial_config cwd target L file0) c ->
     task_complete (st c) = true ->
     step env c = None /\ forall n, run_graph n env c = c).
Proof.
  split.
  - intros c c' Hn H passed.
    destruct (run_tests_route env c c' Hn H) as (Hs & Hnode & _).
    destruct (run_tests_node_frame (env_pytest env (n_test c)) (st c)) as (Ha & Hm & Ht).
    rewrite <- Hs in Ha, Hm, Ht. fold passed in Ht.
    rewrite Hnode. unfold run_tests_edges, _should_continue_fixing.
    rewrite Ht, Ha, Hm.
    destruct passed; simpl.
    + repeat split; intros; try discriminate; auto.
      destruct H0; discriminate.
    + destruct (attempt_count (st c) <? max_attempts (st c))%Z eqn:Hlt; simpl.
      * apply Z.ltb_lt in Hlt.
        repeat split; intros; try discriminate; auto; try lia.
      * apply Z.ltb_ge in Hlt.
        repeat split; intros; try discriminate; auto; try lia.
  - intros c Hr Hdone.
    destruct (reachable_initial_inv env cwd target L file0 c Hr)
      as (_ & _ & _ & _ & _ & _ & _ & Hend).
    assert (Hs : step env c = None) by (unfold step; now rewrite (Hend Hdone)).
    split; [exact Hs|]. intros n. now apply step_none_run_graph.
Qed.

Lemma testing_transitions_witness :
  exists c', step failing_env sample_tests_config = Some c' /\ node c' = self_fix.
Proof.
  destruct (step failing_env sample_tests_config) as [c'|] eqn:H;
    [|vm_compute in H; discriminate].
  exists c'. split; [reflexivity|].
  apply (proj2 (proj1 (proj2 (proj1 (testing_transitions "/work" "icici" 3 None failing_env)
           sample_tests_config c' eq_refl H)))).
  split; [reflexivity | vm_compute; reflexivity].
Defined.

(** ** Claims about single nodes *)

(** C5. In a generation step whose reference read succeeds and whose model
    call raises, or returns a text from which no non-empty code is
    extracted, the run goes to END (the next configuration executes
    nothing, in particular no test), the file at [parser_path] keeps its
    content, no test step is counted, and the failure is the feedback. *)
Theorem no_code_short_circuit (env : Env) (c : Config) (cols : list string) :
  node c = generate_code ->
  env_read_csv env (n_gen c) = Some cols ->
  match env_generate env (n_gen c) (build_prompt (st c)) with
  | GenRaise _ => True
  | GenText t => forall code, _extract_code t = Ret (Some code) -> code = EmptyString
  end ->
  exists c', step env c = Some c' /\ node c' = END /\ step env c' = None /\
    parser_file c' = parser_file c /\ n_test c' = n_test c /\
    current_code (st c') = None /\
    (test_results (st c') = Some MSG_NO_CODE \/
     exists e, test_results (st c') = Some (MSG_GEN_EXC ++ e)).
Proof.
  intros Hn Hcsv Hgen. unfold step. rewrite Hn.
  unfold _generate_code_node. rewrite Hcsv.
  destruct (env_generate env (n_gen c) (build_prompt (st c))) as [e|t].
  - eexists. split; [reflexivity|]. simpl.
    repeat split; auto. right. now exists e.
  - destruct (_extract_code t) as [code|e] eqn:E.
    + assert (truthy_opt code = false) as ->.
      { destruct code as [code|]; [|reflexivity].
        rewrite (Hgen code eq_refl). reflexivity. }
      eexists. split; [reflexivity|]. simpl. repeat split; auto.
    + eexists. split; [reflexivity|]. simpl.
      repeat split; auto. right. now exists e.
Qed.

Lemma no_code_short_circuit_witness :
  exists c', step (env_reply_empty failing_env) sample_generate_config = Some c' /\
             node c' = END /\ parser_file c' = None.
Proof.
  destruct (no_code_short_circuit (env_reply_empty failing_env) sample_generate_config
              sample_columns eq_refl eq_refl) as (c' & H1 & H2 & _ & H3 & _).
  - simpl. intros code H. vm_compute in H. discriminate.
  - exists c'. split; [exact H1|]. split; [exact H2 | exact H3].
Defined.

(** C6 (counterexample). A failed test run with output [F] and error
    output [E] leaves the feedback [Tests failed.\nSTDOUT:\nF\nSTDERR:\nE],
    not the concatenation [FE]. *)
Lemma verification_feedback_not_concatenation :
  match step failing_env sample_tests_config with
  | Some c' => task_complete (st c') = false /\
               test_results (st c') <> Some ("F" ++ "E")
  | None => False
  end.
Proof. vm_compute. split; [reflexivity | discriminate]. Qed.

(** C6 (amended). A test step always completes (it never raises out of the
    graph) and leaves the file untouched; return code 0 sets
    [task_complete] and the success message; a non-zero return code clears
    [task_complete] and sets the feedback to [Tests failed.], [STDOUT:],
    the standard output, [STDERR:] and the standard error, on separate
    lines; a raised timeout or spawn error clears [task_complete] and
    records its message. *)
Theorem verification_outcome (env : Env) (c : Config) :
  node c = run_tests ->
  exists c', step env c = Some c' /\ node c' <> raised /\
    parser_file c' = parser_file c /\
    match env_pytest env (n_test c) with
    | Completed rc out err =>
        if (rc =? 0)%Z
        then task_complete (st c') = true /\ test_results (st c') = Some MSG_PASSED
        else task_complete (st c') = false /\
             test_results (st c') = Some (tests_failed_msg out err)
    | TestRaise e =>
        task_complete (st c') = false /\ test_results (st c') = Some (MSG_TEST_EXC ++ e)
    end.
Proof.
  intros Hn. unfold step. rewrite Hn. eexists. split; [reflexivity|]. simpl.
  split; [unfold run_tests_edges; destruct (String.eqb _ "fix"); discriminate|].
  split; [reflexivity|].
  destruct (env_pytest env (n_test c)) as [rc out err|e]; simpl;
    [destruct (rc =? 0)%Z|]; simpl; auto.
Qed.

Lemma verification_outcome_witness :
  exists c', step failing_env sample_tests_config = Some c' /\
             test_results (st c') = Some (tests_failed_msg "F" "E").
Proof.
  destruct (verification_outcome failing_env sample_tests_config eq_refl)
    as (c' & H1 & _ & _ & H2).
  exists c'. split; [exact H1|]. exact (proj2 H2).
Defined.

(** C7 (failing input). [_generate_code_node] reads the reference file
    into [csv_schema] and never uses it: two generation steps that differ
    only in the column names of the reference file send the same prompt,
    [build_prompt] of the state, and produce the same configuration. *)
Lemma prompt_ignores_reference_columns :
  env_read_csv (env_with_columns sample_columns) 0 <>
    env_read_csv (env_with_columns ["Txn Date"; "Narration"]) 0 /\
  step (env_with_columns sample_columns) sample_generate_config =
    step (env_with_columns ["Txn Date"; "Narration"]) sample_generate_config /\
  exists c', step (env_with_columns sample_columns) sample_generate_config = Some c' /\
    prompts_sent c' = [build_prompt (st sample_generate_config)].
Proof.
  split; [discriminate|]. split; [reflexivity|].
  eexists. split; reflexivity.
Qed.

(** The column names read from the reference file are never used: two
    environments that agree on everything but those columns give the same
    step from every configuration whose read succeeds; the prompt sent is
    [build_prompt] of the state, which depends on the target identifier and
    the previous feedback only; and a failed read aborts the run before any
    prompt is sent. *)
Lemma prompt_independent_of_reference :
  (forall (env1 env2 : Env) (c : Config) (cols1 cols2 : list string),
     env_generate env1 = env_generate env2 -> env_pytest env1 = env_pytest env2 ->
     env_write env1 = env_write env2 ->
     env_read_csv env1 (n_gen c) = Some cols1 ->
     env_read_csv env2 (n_gen c) = Some cols2 ->
     step env1 c = step env2 c) /\
  (forall (env : Env) (c : Config) (cols : list string),
     node c = generate_code -> env_read_csv env (n_gen c) = Some cols ->
     exists c', step env c = Some c' /\
       prompts_sent c' = (prompts_sent c ++ [build_prompt (st c)])%list) /\
  (forall (env : Env) (c : Config),
     node c = generate_code -> env_read_csv env (n_gen c) = None ->
     exists c', step env c = Some c' /\ node c' = raised /\
       prompts_sent c' = prompts_sent c) /\
  (forall s s', target_bank s = target_bank s' -> test_results s = test_results s' ->
     build_prompt s = build_prompt s').
Proof.
  split; [|split; [|split]].
  - intros env1 env2 c cols1 cols2 Hg Ht Hw H1 H2. unfold step.
    destruct (node c); try reflexivity.
    + unfold _generate_code_node. rewrite H1, H2, Hg, Hw. reflexivity.
    + now rewrite Ht.
  - intros env c cols Hn Hr. unfold step. rewrite Hn.
    destruct (_generate_code_node _ _ _ _ _) as [[[s' f'] p]|] eqn:G.
    + apply generate_code_node_frame in G as (_ & _ & _ & ->).
      eexists. split; reflexivity.
    + unfold _generate_code_node in G. rewrite Hr in G.
      destruct (env_generate env (n_gen c) (build_prompt (st c)));
        [discriminate|].
      destruct (_extract_code _) as [code|]; [destruct (truthy_opt code); [destruct (env_write env (n_gen c))|]|];
        discriminate.
  - intros env c Hn Hr. unfold step. rewrite Hn.
    unfold _generate_code_node. rewrite Hr.
    eexists. repeat split.
  - intros s s' H1 H2. unfold build_prompt. now rewrite H1, H2.
Qed.

(** ** Claims about [_extract_code] *)

(** C2 (failing input). In [```pythonab````python] the first opening fence
    is at the start, and in the text after it, [ab````python], the next
    fence starts right after [ab]; the inner text is [ab], but
    [_extract_code] returns [ab`]: its first [split] also cuts at the
    second [```python], which starts inside the closing fence. *)
Theorem extract_code_overlapping_fence :
  first_occurrence FENCE_OPEN overlapping_fence_text EmptyString "ab````python" /\
  first_occurrence FENCE_CLOSE "ab````python" "ab" "`python" /\
  strip "ab" = "ab" /\
  _extract_code overlapping_fence_text = Ret (Some "ab`").
Proof.
  split; [apply cut_first_first_occurrence; reflexivity|].
  split; [apply cut_first_first_occurrence; reflexivity|].
  split; reflexivity.
Qed.

(** C10. With an opening fence and no closing fence after it, the whole
    text after the first opening fence is returned, stripped; a non-empty
    whitespace-only text yields the empty string, and a generation step
    receiving it behaves exactly as for an empty reply: it goes to END
    without writing the file and without testing. *)
Theorem extract_code_boundaries :
  (forall text pre rest, first_occurrence FENCE_OPEN text pre rest ->
     (forall a b, rest <> a ++ FENCE_CLOSE ++ b) ->
     _extract_code text = Ret (Some (strip rest))) /\
  (forall text, text <> EmptyString -> all_space text = true ->
     _extract_code text = Ret (Some EmptyString) /\
     forall env c cols, node c = generate_code ->
       env_read_csv env (n_gen c) = Some cols ->
       env_generate env (n_gen c) (build_prompt (st c)) = GenText text ->
       exists c', step env c = Some c' /\ step (env_reply_empty env) c = Some c' /\
         node c' = END /\ parser_file c' = parser_file c /\ n_test c' = n_test c).
Proof.
  split.
  - intros text pre rest Hfirst Hclose.
    rewrite (extract_code_fenced text pre rest Hfirst).
    rewrite (no_close_no_open rest Hclose).
    rewrite (proj2 (cut_first_none FENCE_CLOSE rest) Hclose). reflexivity.
  - intros text Hne Hsp.
    assert (E : _extract_code text = Ret (Some EmptyString)).
    { rewrite (extract_code_unfenced text (all_space_no_fence text Hsp)).
      destruct text as [|ch t]; [congruence|]. simpl truthy.
      now rewrite (strip_all_space _ Hsp). }
    split; [exact E|].
    intros env c cols Hn Hcsv Hgen. unfold step. rewrite Hn.
    unfold _generate_code_node. simpl env_read_csv. simpl env_generate.
    rewrite Hcsv, Hgen, E. simpl.
    eexists. repeat split.
Qed.

Lemma extract_code_boundaries_witness :
  _extract_code ("```python" ++ nl ++ "x = 1" ++ nl) = Ret (Some "x = 1") /\
  _extract_code "  " = Ret (Some EmptyString).
Proof.
  split.
  - refine (proj1 extract_code_boundaries _ EmptyString ("" ++ nl ++ "x = 1" ++ nl) _ _).
    + apply cut_first_first_occurrence. reflexivity.
    + apply cut_first_none. reflexivity.
  - refine (proj1 (proj2 extract_code_boundaries "  " _ _)); [discriminate | reflexivity].
Defined.

(** ** The process entry surface *)

Lemma lookup_option_in (acts : list Action) (o : string) (a : Action) :
  lookup_option acts o = Some a -> In a acts.
Proof.
  unfold lookup_option.
  destruct (find _ _) as [[o' a']|] eqn:Hf; [|discriminate].
  intros [= <-]. apply find_some in Hf as [Hin _].
  unfold option_string_actions in Hin. apply in_flat_map in Hin as (b & Hb & Hin).
  apply in_map_iff in Hin as (o'' & [= _ <-] & _). exact Hb.
Qed.

Lemma option_string_actions_in (acts : list Action) (p : string * Action) :
  In p (option_string_actions acts) -> In (snd p) acts.
Proof.
  unfold option_string_actions. intros Hin.
  apply in_flat_map in Hin as (b & Hb & Hin).
  apply in_map_iff in Hin as (o & <- & _). exact Hb.
Qed.

Lemma get_option_tuples_in (acts : list Action) (s : string) a o x :
  In (OptionalTuple (Some a) o x) (get_option_tuples acts s) -> In a acts.
Proof.
  unfold get_option_tuples. destruct s as [|c1 [|c2 r]]; try (intros []).
  destruct (Ascii.eqb c2 "-").
  - destruct (cut_first "=" _) as [[p e]|]; intros Hin;
      apply in_map_iff in Hin as (q & [= <- _ _] & Hq);
      apply filter_In in Hq as [Hq _]; exact (option_string_actions_in _ _ Hq).
  - intros Hin. apply in_flat_map in Hin as (q & Hq & Hin).
    destruct (String.eqb _ _); [|destruct (is_prefix _ _)];
      simpl in Hin; try contradiction; destruct Hin as [Heq|[]];
      injection Heq as <- _ _; exact (option_string_actions_in _ _ Hq).
Qed.

Lemma parse_optional_in (acts : list Action) (s : string) a o x :
  parse_optional acts s = inr (OptionalTuple (Some a) o x) -> In a acts.
Proof.
  unfold parse_optional. destruct s as [|c r]; [discriminate|].
  destruct (negb _); [discriminate|].
  destruct (lookup_option acts (String c r)) as [b|] eqn:Hl.
  - intros [= <- _ _]. exact (lookup_option_in _ _ _ Hl).
  - destruct (_ =? 1)%nat; [discriminate|].
    destruct (cut_first "=" (String c r)) as [[o' e]|].
    + destruct (lookup_option acts o') as [b|] eqn:Hl'.
      * intros [= <- _ _]. exact (lookup_option_in _ _ _ Hl').
      * destruct (get_option_tuples acts (String c r)) as [|t [|t' ts]] eqn:Hg;
          [| |discriminate].
        -- destruct (_ && _); [discriminate|]. destruct (contains _ _); discriminate.
        -- intros [= ->]. apply (get_option_tuples_in acts (String c r) a o x).
           rewrite Hg. now left.
    + destruct (get_option_tuples acts (String c r)) as [|t [|t' ts]] eqn:Hg;
        [| |discriminate].
      * destruct (_ && _); [discriminate|]. destruct (contains _ _); discriminate.
      * intros [= ->]. apply (get_option_tuples_in acts (String c r) a o x).
        rewrite Hg. now left.
Qed.

Lemma classify_in (acts : list Action) (argv : list string) (ps : list Pat) :
  classify acts argv = inr ps -> forall a o x, In (PO (Some a) o x) ps -> In a acts.
Proof.
  revert ps. induction argv as [|s rest IH]; intros ps H a o x Hin; simpl in H.
  - injection H as <-. destruct Hin.
  - destruct (String.eqb s "--").
    + injection H as <-. destruct Hin as [[=]|Hin].
      apply in_map_iff in Hin as (? & [=] & _).
    + destruct (parse_optional acts s) as [e|op] eqn:Hp; [discriminate|].
      destruct (classify acts rest) as [e|ps'] eqn:Hc; [discriminate|].
      injection H as <-. destruct Hin as [Hh|Hin].
      * destruct op as [|a' o' x']; [discriminate|]. injection Hh as -> -> ->.
        exact (parse_optional_in _ _ _ _ _ Hp).
      * exact (IH ps' eq_refl a o x Hin).
Qed.

Lemma consume_optional_in (fuel : nat) (acts : list Action) a o x rest acc tuples rest' :
  In a acts -> (forall p, In p acc -> In (fst p) acts) ->
  consume_optional fuel acts a o x rest acc = inr (tuples, rest') ->
  (forall p, In p tuples -> In (fst p) acts) /\ (forall q, In q rest' -> In q rest).
Proof.
  revert a o x acc. induction fuel as [|f IH]; intros a o x acc Ha Hacc H; simpl in H.
  - injection H as <- <-. auto.
  - assert (Hacc' : forall args p, In p (acc ++ [(a, args)])%list -> In (fst p) acts).
    { intros args p Hp. apply in_app_or in Hp as [Hp|[<-|[]]]; auto. }
    destruct x as [s|].
    + destruct (act_nargs a) as [|[|n]].
      * destruct (_ && _); [|discriminate].
        destruct (lookup_option acts _) as [a'|] eqn:Hl; [|discriminate].
        exact (IH a' _ _ _ (lookup_option_in _ _ _ Hl) (Hacc' []) H).
      * injection H as <- <-. split; [apply Hacc' | auto].
      * discriminate.
    + destruct (act_nargs a) as [|n].
      * injection H as <- <-. split; [apply Hacc' | auto].
      * destruct rest as [|[v [| | ]] rest0]; try discriminate.
        injection H as <- <-. split; [apply Hacc' | intros q Hq; right; exact Hq].
Qed.

(** The shape of [main]'s namespace: the two attributes in order, set
    once their option has been taken. *)
Definition main_ns_ok (ns : Namespace) (seen : list string) : Prop :=
  exists v1 v2, ns = [("target", v1); ("api_key", v2)] /\
    (In "--target" seen -> v1 <> None) /\ (In "--api-key" seen -> v2 <> None).

Lemma take_actions_main (tuples : list (Action * list string)) ns seen ns' seen' :
  (forall p, In p tuples -> In (fst p) main_actions) -> main_ns_ok ns seen ->
  take_actions tuples ns seen = Some (ns', seen') -> main_ns_ok ns' seen'.
Proof.
  revert ns seen. induction tuples as [|[a args] ts IH]; intros ns seen Hin Hok H;
    simpl in H.
  - injection H as <- <-. exact Hok.
  - pose proof (Hin (a, args) (or_introl eq_refl)) as Ha. simpl in Ha.
    destruct Ha as [<-|[<-|[<-|[]]]]; simpl in H.
    + discriminate.
    + apply (IH _ _ (fun p Hp => Hin p (or_intror Hp))) in H; [exact H|].
      destruct Hok as (v1 & v2 & -> & H1 & H2).
      exists (Some (get_values args)), v2. split; [reflexivity|]. split.
      * discriminate.
      * intros Hs. apply in_app_or in Hs as [Hs|[Hs|[]]]; [exact (H2 Hs)|discriminate].
    + apply (IH _ _ (fun p Hp => Hin p (or_intror Hp))) in H; [exact H|].
      destruct Hok as (v1 & v2 & -> & H1 & H2).
      exists v1, (Some (get_values args)). split; [reflexivity|]. split.
      * intros Hs. apply in_app_or in Hs as [Hs|[Hs|[]]]; [exact (H1 Hs)|discriminate].
      * discriminate.
Qed.

Lemma consume_main (fuel : nat) (items : list (string * Pat)) ns seen extras ns' seen' extras' :
  (forall tok a o x, In (tok, PO (Some a) o x) items -> In a main_actions) ->
  main_ns_ok ns seen ->
  consume fuel main_actions items ns seen extras = CDone ns' seen' extras' ->
  main_ns_ok ns' seen'.
Proof.
  revert items ns seen extras. induction fuel as [|f IH]; intros items ns seen extras Hin Hok H;
    cbn [consume] in H.
  - injection H as <- <- _. exact Hok.
  - destruct items as [|[tok p] rest]; [injection H as <- <- _; exact Hok|].
    assert (Hrest : forall tok a o x, In (tok, PO (Some a) o x) rest -> In a main_actions)
      by (intros; eapply Hin; right; eassumption).
    destruct p as [|[a|] o x|]; try exact (IH _ _ _ _ Hrest Hok H).
    match type of H with
    | context [consume_optional ?n main_actions a o x rest []] =>
        destruct (consume_optional n main_actions a o x rest []) as [e|[tuples rest']] eqn:Hc
    end; [discriminate|].
    destruct (consume_optional_in _ _ _ _ _ _ [] _ _ (Hin tok a o x (or_introl eq_refl))
                ltac:(simpl; tauto) Hc) as [Ht Hr].
    destruct (take_actions tuples ns seen) as [[ns1 seen1]|] eqn:Hta; [|discriminate].
    apply (IH rest' ns1 seen1 extras); [| exact (take_actions_main _ _ _ _ _ Ht Hok Hta) | exact H].
    intros tok' a' o' x' Hq. eapply Hin. right. apply Hr. exact Hq.
Qed.

Lemma parse_args_main (argv : list string) (ns : Namespace) :
  parse_args main_actions argv = ParseOk ns ->
  exists v1 v2, ns = [("target", Some v1); ("api_key", Some v2)].
Proof.
  unfold parse_args. destruct (classify main_actions argv) as [e|ps] eqn:Hc; [discriminate|].
  destruct (consume _ _ _ _ _ _) as [ns0 seen extras| |] eqn:Hcons; try discriminate.
  assert (Hok : main_ns_ok ns0 seen).
  { eapply consume_main; [| |exact Hcons].
    - intros tok a o x Hin. apply in_combine_r in Hin. exact (classify_in _ _ _ Hc a o x Hin).
    - exists None, None. split; [reflexivity|]. simpl; tauto. }
  cbn [map filter main_actions act_required action_name act_option_strings join_with
       fold_left andb].
  destruct (existsb (String.eqb "--target") seen) eqn:Ht;
    destruct (existsb (String.eqb "--api-key") seen) eqn:Ha; simpl; try discriminate.
  destruct extras; [|discriminate]. intros [= <-].
  destruct Hok as (v1 & v2 & -> & H1 & H2).
  apply existsb_exists in Ht as (x & Hx & Hxe). apply String.eqb_eq in Hxe as <-.
  apply existsb_exists in Ha as (y & Hy & Hye). apply String.eqb_eq in Hye as <-.
  destruct v1 as [v1|]; [|contradiction (H1 Hx eq_refl)].
  destruct v2 as [v2|]; [|contradiction (H2 Hy eq_refl)].
  eexists _, _. reflexivity.
Qed.

Lemma parse_optional_target : parse_optional main_actions "--target" =
  inr (OptionalTuple (Some (mkAction StoreAction ["--target"] (Some "target") true))
         "--target" None).
Proof. reflexivity. Qed.

Lemma parse_optional_api_key : parse_optional main_actions "--api-key" =
  inr (OptionalTuple (Some (mkAction StoreAction ["--api-key"] (Some "api_key") true))
         "--api-key" None).
Proof. reflexivity. Qed.

Lemma get_values_single (v : string) : v <> "--" -> get_values [v] = VStr v.
Proof.
  intros H. unfold get_values, remove_first.
  destruct (String.eqb "--" v) eqn:E; [apply String.eqb_eq in E; congruence|reflexivity].
Qed.

(** C8 (counterexample). The command line offers no retry-limit option:
    asking for one is a usage error. *)
Lemma main_rejects_retry_override :
  main ["--target"; "icici"; "--api-key"; "KEY"; "--max-attempts"; "5"] =
  MainUsageError (ErrUnrecognized ["--max-attempts"; "5"]) /\
  main ["--target"; "icici"; "--api-key"; "KEY"; "--max-attempts=5"] =
  MainUsageError (ErrUnrecognized ["--max-attempts=5"]).
Proof. split; reflexivity. Qed.

(** C8 (amended). [main]'s parser has two options, [--target] and
    [--api-key], both required, besides [-h]/[--help]: a successful parse
    yields a namespace with exactly the attributes [target] and [api_key],
    both set, and every run started by [main] has both values and uses
    [run]'s default limit of 3 attempts.  Both options are accepted with
    their value as the next string, where [argparse] takes that string as
    an argument (a negative number such as [-5] included), or after [=]. *)
Theorem main_entry_surface :
  (forall argv ns, parse_args main_actions argv = ParseOk ns ->
     exists t k, ns = [("target", Some t); ("api_key", Some k)]) /\
  (forall argv k t m, main argv = MainRun k t m ->
     m = run_default_max_attempts /\ k <> None /\ t <> None) /\
  (forall t k, parse_optional main_actions t = inr Positional ->
     parse_optional main_actions k = inr Positional -> t <> "--" -> k <> "--" ->
     main ["--target"; t; "--api-key"; k] = MainRun (Some (VStr k)) (Some (VStr t)) 3) /\
  (forall t k, main ["--target=" ++ t; "--api-key=" ++ k]%string =
     MainRun (Some (get_values [k])) (Some (get_values [t])) 3).
Proof.
  split; [exact parse_args_main|]. split; [|split].
  - intros argv k t m H. unfold main in H.
    destruct (parse_args main_actions argv) as [ns| |] eqn:Hp; try discriminate.
    destruct (parse_args_main argv ns Hp) as (v1 & v2 & ->).
    cbn in H. injection H as <- <- <-. split; [reflexivity|]. split; discriminate.
  - intros t k Ht Hk Ht2 Hk2.
    assert (Et : String.eqb t "--" = false) by (apply String.eqb_neq; exact Ht2).
    assert (Ek : String.eqb k "--" = false) by (apply String.eqb_neq; exact Hk2).
    unfold main, parse_args. cbn [classify].
    rewrite parse_optional_target, parse_optional_api_key, Et, Ek, Ht, Hk.
    cbn [String.eqb Ascii.eqb Bool.eqb].
    cbn -[get_values]. rewrite (get_values_single t Ht2), (get_values_single k Hk2).
    reflexivity.
  - intros t k. reflexivity.
Qed.

Lemma main_entry_surface_witness :
  main ["--target"; "-5"; "--api-key"; "KEY"] = MainRun (Some (VStr "KEY")) (Some (VStr "-5")) 3.
Proof.
  apply (proj1 (proj2 (proj2 main_entry_surface)) "-5" "KEY");
    [vm_compute; reflexivity | vm_compute; reflexivity | discriminate | discriminate].
Defined.

(** ** Scenarios of the spec *)

Example scenario_B_run :
  let c := run_graph 20 scenario_B_env (initial_config "/work" "icici" 3 None) in
  node c = END /\ task_complete (st c) = true /\ attempt_count (st c) = 3%Z /\
  n_gen c = 3%nat.
Proof. vm_compute. repeat split. Qed.

Example scenario_C_run :
  let c := run_graph 20 failing_env (initial_config "/work" "icici" 2 None) in
  node c = END /\ task_complete (st c) = false /\ n_gen c = 2%nat /\
  test_results (st c) = Some (tests_failed_msg "F" "E").
Proof. vm_compute. repeat split. Qed.

Example scenario_D_run :
  let c := run_graph 20 (env_reply_empty failing_env)
             (initial_config "/work" "icici" 3 (Some "old")) in
  node c = END /\ n_gen c = 1%nat /\ n_test c = 0%nat /\ parser_file c = Some "old".
Proof. vm_compute. repeat split. Qed.

(** * Further properties of the code *)

(** ** The control loop *)

Lemma generate_code_node_code cols g w s f s' f' p :
  _generate_code_node cols g w s f = Some (s', f', p) ->
  truthy_opt (current_code s') = true -> f' = current_code s'.
Proof.
  unfold _generate_code_node. intros H.
  destruct cols; [|discriminate].
  destruct (g (build_prompt s)) as [e|text].
  - injection H as <- <- <-. simpl. discriminate.
  - destruct (_extract_code text) as [code|e].
    + destruct (truthy_opt code) eqn:Hc; [destruct w|]; injection H as <- <- <-; simpl;
        solve [reflexivity | discriminate].
    + injection H as <- <- <-. simpl. discriminate.
Qed.

(** The test suite only ever runs right after a generation step that wrote
    a non-empty program: in every reachable test configuration, the file at
    [parser_path] holds exactly [current_code], and it is non-empty. *)
Theorem tests_run_on_written_code (cwd target : string) (L : Z)
    (file0 : option string) (env : Env) (c : Config) :
  reachable env (initial_config cwd target L file0) c -> node c = run_tests ->
  parser_file c = current_code (st c) /\ truthy_opt (current_code (st c)) = true.
Proof.
  intros Hr. induction Hr as [|c c' _ _ H]; [discriminate|].
  intros Hn. unfold step in H. destruct (node c).
  - injection H as <-. discriminate.
  - destruct (_generate_code_node _ _ _ _ _) as [[[s' f'] p]|] eqn:G.
    + injection H as <-. simpl in *. unfold generate_code_edges, _should_test in Hn.
      destruct (truthy_opt (current_code s')) eqn:Ht; [|discriminate].
      split; [exact (generate_code_node_code _ _ _ _ _ _ _ _ G Ht) | reflexivity].
    + injection H as <-. discriminate.
  - injection H as <-. simpl in Hn. unfold run_tests_edges in Hn.
    destruct (String.eqb _ "fix"); discriminate.
  - injection H as <-. discriminate.
  - discriminate.
  - discriminate.
Qed.

Lemma tests_run_on_written_code_witness :
  let c := run_graph 2 failing_env (initial_config "/work" "icici" 3 None) in
  reachable failing_env (initial_config "/work" "icici" 3 None) c /\
  node c = run_tests /\ parser_file c = current_code (st c).
Proof.
  intros c.
  assert (Hr : reachable failing_env (initial_config "/work" "icici" 3 None) c)
    by (apply run_graph_reachable, reach_init).
  assert (Hn : node c = run_tests) by reflexivity.
  split; [exact Hr|]. split; [exact Hn|].
  exact (proj1 (tests_run_on_written_code "/work" "icici" 3 None failing_env c Hr Hn)).
Defined.

Lemma generate_step_prompt (env : Env) (c : Config) (cols : list string) :
  node c = generate_code -> env_read_csv env (n_gen c) = Some cols ->
  exists c', step env c = Some c' /\
    prompts_sent c' = (prompts_sent c ++ [build_prompt (st c)])%list.
Proof.
  intros Hn Hr. unfold step. rewrite Hn.
  destruct (_generate_code_node _ _ _ _ _) as [[[s' f'] p]|] eqn:G.
  - apply generate_code_node_frame in G as (_ & _ & _ & ->).
    eexists. split; reflexivity.
  - unfold _generate_code_node in G. rewrite Hr in G.
    destruct (env_generate env (n_gen c) (build_prompt (st c))); [discriminate|].
    destruct (_extract_code _) as [code|];
      [destruct (truthy_opt code); [destruct (env_write env (n_gen c))|]|];
      discriminate.
Qed.

(** After a failed test run with attempts left, the run goes through
    [self_fix] to a new generation whose prompt carries the failure report
    [Tests failed. STDOUT: ... STDERR: ...] as the feedback, with the
    counter one higher.  Through [invoke], the three node executions
    ([run_tests], [self_fix], [generate_code]) that send this prompt take
    three units of the remaining recursion budget: with at least three
    left the run goes on from the configuration after the new prompt was
    sent; with fewer, [GraphRecursionError] is raised before it is sent. *)
Theorem failure_feedback_reaches_next_prompt (env : Env) (c : Config) (rc : Z)
    (out err : string) (cols : list string) (budget : nat) :
  node c = run_tests -> env_pytest env (n_test c) = Completed rc out err ->
  rc <> 0%Z -> (attempt_count (st c) < max_attempts (st c))%Z ->
  env_read_csv env (n_gen c) = Some cols ->
  node (run_graph 1 env c) = self_fix /\
  node (run_graph 2 env c) = generate_code /\
  attempt_count (st (run_graph 2 env c)) = (attempt_count (st c) + 1)%Z /\
  prompts_sent (run_graph 3 env c) =
    (prompts_sent c ++ [(prompt_head ++ target_bank (st c) ++ prompt_middle
                         ++ tests_failed_msg out err ++ prompt_tail)%string])%list /\
  ((3 <= budget)%nat -> invoke budget env c = invoke (budget - 3) env (run_graph 3 env c)) /\
  ((budget < 3)%nat -> exists c', invoke budget env c = InvokeRecursionError c' /\
                                  prompts_sent c' = prompts_sent c).
Proof.
  intros Hn Hp Hrc Hlt Hr.
  set (s1 := set_task_complete false
               (set_test_results (Some (tests_failed_msg out err)) (st c))).
  set (c1 := mkConfig self_fix s1 (parser_file c) (prompts_sent c) (n_gen c) (S (n_test c))).
  set (c2 := mkConfig generate_code (_self_fix_node s1) (parser_file c) (prompts_sent c)
               (n_gen c) (S (n_test c))).
  assert (H1 : step env c = Some c1).
  { unfold step. rewrite Hn, Hp. unfold _run_tests_node.
    apply Z.eqb_neq in Hrc. rewrite Hrc. fold s1.
    unfold run_tests_edges, _should_continue_fixing.
    replace (task_complete s1) with false by reflexivity.
    replace (attempt_count s1 <? max_attempts s1)%Z with true
      by (symmetry; apply Z.ltb_lt; exact Hlt).
    reflexivity. }
  assert (H2 : step env c1 = Some c2) by reflexivity.
  destruct (generate_step_prompt env c2 cols eq_refl Hr) as (c3 & H3 & Hps).
  split; [rewrite (run_graph_step env c c1 0 H1); reflexivity|].
  split; [rewrite (run_graph_step env c c1 1 H1), (run_graph_step env c1 c2 0 H2);
          reflexivity|].
  split.
  { rewrite (run_graph_step env c c1 1 H1), (run_graph_step env c1 c2 0 H2).
    cbn. lia. }
  split.
  { rewrite (run_graph_step env c c1 2 H1), (run_graph_step env c1 c2 1 H2),
      (run_graph_step env c2 c3 0 H3).
    cbn [run_graph]. rewrite Hps. reflexivity. }
  split.
  - intros Hb. destruct budget as [|[|[|b]]]; try lia.
    rewrite (invoke_step env c c1 _ H1), (invoke_step env c1 c2 _ H2),
      (invoke_step env c2 c3 _ H3).
    rewrite (run_graph_step env c c1 2 H1), (run_graph_step env c1 c2 1 H2),
      (run_graph_step env c2 c3 0 H3).
    cbn [run_graph]. f_equal. lia.
  - intros Hb. destruct budget as [|[|[|b]]]; try lia.
    + exists c. split; [|reflexivity]. cbn [invoke]. rewrite H1. reflexivity.
    + exists c1. split; [|reflexivity].
      rewrite (invoke_step env c c1 _ H1). cbn [invoke]. rewrite H2. reflexivity.
    + exists c2. split; [|reflexivity].
      rewrite (invoke_step env c c1 _ H1), (invoke_step env c1 c2 _ H2).
      cbn [invoke]. rewrite H3. reflexivity.
Qed.

Lemma failure_feedback_reaches_next_prompt_witness :
  prompts_sent (run_graph 3 failing_env sample_tests_config) =
    [(prompt_head ++ "icici" ++ prompt_middle ++ tests_failed_msg "F" "E" ++ prompt_tail)%string] /\
  invoke 4 failing_env sample_tests_config =
    invoke 1 failing_env (run_graph 3 failing_env sample_tests_config).
Proof.
  destruct (failure_feedback_reaches_next_prompt failing_env sample_tests_config 1 "F" "E"
              sample_columns 4 eq_refl eq_refl ltac:(lia) ltac:(vm_compute; reflexivity)
              eq_refl) as (_ & _ & _ & Hps & Hb & _).
  split; [exact Hps | exact (Hb ltac:(lia))].
Defined.

Section PersistentFailure.

Variable env : Env.
Hypothesis csv_ok : forall k, exists cols, env_read_csv env k = Some cols.
Hypothesis code_ok : forall k p, exists text code,
  env_generate env k p = GenText text /\ _extract_code text = Ret (Some code) /\
  truthy code = true.
Hypothesis writes_ok : forall k, env_write env k = WriteOk.
Hypothesis tests_fail : forall k, test_passed (env_pytest env k) = false.

Ltac close_failing_inv :=
  repeat split; intros;
  repeat match goal with H : _ \/ _ |- _ => destruct H end;
  try discriminate; try congruence; try lia.

(** Under the hypotheses, a generation step always writes code and goes to
    [run_tests]. *)
Lemma failing_generate_step c :
  node c = generate_code ->
  exists s', step env c = Some (mkConfig run_tests s' (current_code s')
                                  (prompts_sent c ++ [build_prompt (st c)])
                                  (S (n_gen c)) (n_test c)) /\
    attempt_count s' = attempt_count (st c) /\ max_attempts s' = max_attempts (st c) /\
    task_complete s' = task_complete (st c).
Proof.
  intros Hn.
  destruct (csv_ok (n_gen c)) as [cols Hc].
  destruct (code_ok (n_gen c) (build_prompt (st c))) as (text & code & Hg & Hx & Ht).
  exists (set_current_code (Some code) (st c)).
  unfold step. rewrite Hn. unfold _generate_code_node. rewrite Hc, Hg, Hx.
  simpl truthy_opt. rewrite Ht, writes_ok. unfold _should_test. simpl. rewrite Ht.
  repeat split.
Qed.

Lemma failing_inv_step c c' : failing_inv c -> step env c = Some c' -> failing_inv c'.
Proof.
  intros (Hr & Hd & He & H1 & H2) H. unfold failing_inv.
  destruct (node c) eqn:Hn.
  - unfold step in H. rewrite Hn in H. injection H as <-. simpl.
    specialize (H1 (or_introl eq_refl)). close_failing_inv.
  - specialize (H1 (or_intror (or_introl eq_refl))).
    destruct (failing_generate_step c Hn) as (s' & Hs & Ha & Hm & Ht).
    rewrite Hs in H. injection H as <-. simpl. close_failing_inv.
  - unfold step in H. rewrite Hn in H.
    specialize (H1 (or_intror (or_intror eq_refl))).
    injection H as <-. simpl.
    destruct (run_tests_node_frame (env_pytest env (n_test c)) (st c)) as (Ha & Hm & Ht).
    rewrite tests_fail in Ht.
    unfold run_tests_edges, _should_continue_fixing. rewrite Ht, Ha, Hm.
    destruct (attempt_count (st c) <? max_attempts (st c))%Z eqn:Hlt; simpl.
    + close_failing_inv.
    + apply Z.ltb_ge in Hlt. close_failing_inv.
  - unfold step in H. rewrite Hn in H.
    specialize (H2 (or_introl eq_refl)).
    injection H as <-. simpl. close_failing_inv.
  - unfold step in H. rewrite Hn in H. discriminate.
  - unfold step in H. rewrite Hn in H. discriminate.
Qed.

Lemma failing_inv_run c n : failing_inv c -> failing_inv (run_graph n env c).
Proof.
  revert c. induction n as [|n IH]; intros c Hc; simpl; [exact Hc|].
  destruct (step env c) as [c'|] eqn:H; [|exact Hc].
  apply IH. exact (failing_inv_step c c' Hc H).
Qed.

Lemma failing_progress_end L c :
  (1 <= L)%Z -> failing_inv c -> loop_inv L c -> node c = END ->
  failing_progress c = (3 * L)%Z.
Proof.
  intros HL (_ & _ & He & _) (Hm & H1 & Hle & _) Hn.
  specialize (He Hn). unfold failing_progress. rewrite Hn. lia.
Qed.

Lemma failing_progress_step L c :
  (1 <= L)%Z -> failing_inv c -> loop_inv L c -> node c <> END ->
  exists c', step env c = Some c' /\ failing_progress c' = (failing_progress c + 1)%Z.
Proof.
  intros HL Hf Hl Hn.
  destruct Hf as (Hr & Hd & He & H1 & H2).
  destruct Hl as (Hm & Ha1 & Hle & Hfix & Hplan & _).
  unfold failing_progress.
  destruct (node c) eqn:Hnc.
  - eexists. unfold step. rewrite Hnc. split; [reflexivity|]. cbn [node st attempt_count].
    destruct (Hplan eq_refl) as [-> _]. lia.
  - destruct (failing_generate_step c Hnc) as (s' & Hs & Ha & _).
    eexists. split; [exact Hs|]. cbn [node st attempt_count]. rewrite Ha. lia.
  - eexists. unfold step. rewrite Hnc. split; [reflexivity|]. cbn [node st attempt_count].
    destruct (run_tests_node_frame (env_pytest env (n_test c)) (st c)) as (Ha & _ & _).
    unfold run_tests_edges. destruct (String.eqb _ "fix"); rewrite Ha; lia.
  - eexists. unfold step. rewrite Hnc. split; [reflexivity|].
    unfold _self_fix_node, set_attempt_count. cbn [node st attempt_count]. lia.
  - contradiction.
  - contradiction.
Qed.

Lemma failing_progress_run L k c :
  (1 <= L)%Z -> failing_inv c -> loop_inv L c ->
  (failing_progress c + Z.of_nat k <= 3 * L)%Z ->
  failing_progress (run_graph k env c) = (failing_progress c + Z.of_nat k)%Z.
Proof.
  intros HL. revert c. induction k as [|k IH]; intros c Hf Hl Hk; simpl; [lia|].
  assert (Hn : node c <> END).
  { intros Hn. rewrite (failing_progress_end L c HL Hf Hl Hn) in Hk. lia. }
  destruct (failing_progress_step L c HL Hf Hl Hn) as (c' & Hs & Hp).
  rewrite Hs. rewrite (IH c' (failing_inv_step c c' Hf Hs) (loop_inv_step env L c c' Hl Hs));
    lia.
Qed.

Lemma failing_run_graph_end (cwd target : string) (L : Z)
    (file0 : option string) (fuel : nat) :
  (1 <= L)%Z -> (3 * Z.to_nat L <= fuel)%nat ->
  let c := run_graph fuel env (initial_config cwd target L file0) in
  step env c = None /\
  node c = END /\ task_complete (st c) = false /\ attempt_count (st c) = L /\
  n_gen c = Z.to_nat L /\ n_test c = Z.to_nat L.
Proof.
  intros HL Hf c.
  assert (Hstop : step env c = None).
  { apply (run_graph_exhausts env L); [apply initial_loop_inv|].
    unfold potential, initial_config, initial_state; simpl. lia. }
  assert (Hinv : loop_inv L c)
    by (apply (reachable_initial_inv env cwd target L file0),
        run_graph_reachable, reach_init).
  assert (Hf' : failing_inv c).
  { apply failing_inv_run. unfold failing_inv, initial_config, initial_state; simpl.
    close_failing_inv. }
  destruct Hf' as (Hr & Hd & He & _ & Ht).
  destruct Hinv as (HmL & H1 & Hle & _ & _ & _ & Hoth & _).
  destruct (step_none_node env c Hstop) as [Hn|Hn]; [|contradiction].
  specialize (He Hn). specialize (Ht (or_intror Hn)).
  assert (Z.of_nat (n_gen c) = attempt_count (st c))
    by (apply Hoth; rewrite Hn; discriminate).
  split; [exact Hstop|]. split; [exact Hn|]. split; [exact Hd|]. split; [lia|]. split; lia.
Qed.

(** When every generation yields code that is written and every test run
    fails, a run with [1 <= attemptLimit] needs exactly [3 * attemptLimit]
    node executions ([plan], [attemptLimit] generations and test runs, and
    [attemptLimit - 1] fixes).  Within the recursion limit it ends
    normally after [attemptLimit] generation and test cycles, with the
    counter at [attemptLimit] and the task not complete; with a smaller
    limit [invoke] raises [GraphRecursionError]. *)
Theorem persistent_failure_exhausts_budget (cwd target : string) (L : Z)
    (file0 : option string) (recursion_limit : nat) :
  (1 <= L)%Z ->
  ((3 * Z.to_nat L <= recursion_limit)%nat ->
     exists c, invoke recursion_limit env (initial_config cwd target L file0) = InvokeDone c /\
       node c = END /\ task_complete (st c) = false /\ attempt_count (st c) = L /\
       n_gen c = Z.to_nat L /\ n_test c = Z.to_nat L) /\
  ((recursion_limit < 3 * Z.to_nat L)%nat ->
     exists c, invoke recursion_limit env (initial_config cwd target L file0) =
                 InvokeRecursionError c /\ task_complete (st c) = false).
Proof.
  intros HL. rewrite invoke_run_graph. split.
  - intros Hf.
    destruct (failing_run_graph_end cwd target L file0 recursion_limit HL Hf)
      as (Hstop & Hrest). rewrite Hstop. eexists. split; [reflexivity | exact Hrest].
  - intros Hf.
    set (c0 := initial_config cwd target L file0).
    assert (Hf0 : failing_inv c0).
    { unfold failing_inv, c0, initial_config, initial_state; simpl. close_failing_inv. }
    assert (Hl0 : loop_inv L c0) by apply initial_loop_inv.
    set (c := run_graph recursion_limit env c0).
    assert (Hp : failing_progress c = Z.of_nat recursion_limit).
    { unfold c. rewrite (failing_progress_run L recursion_limit c0 HL Hf0 Hl0);
        unfold c0, failing_progress, initial_config; cbn [node]; lia. }
    assert (Hfc : failing_inv c) by (apply failing_inv_run; exact Hf0).
    assert (Hlc : loop_inv L c)
      by (apply (reachable_initial_inv env cwd target L file0), run_graph_reachable, reach_init).
    assert (Hn : node c <> END).
    { intros Hn. rewrite (failing_progress_end L c HL Hfc Hlc Hn) in Hp. lia. }
    destruct (failing_progress_step L c HL Hfc Hlc Hn) as (c' & Hs & _).
    fold c. rewrite Hs. eexists. split; [reflexivity|].
    destruct Hfc as (_ & Hd & _). exact Hd.
Qed.

End PersistentFailure.

Lemma persistent_failure_exhausts_budget_witness :
  exists c, invoke 5 failing_env (initial_config "/work" "icici" 2 None) =
            InvokeRecursionError c.
Proof.
  assert (Hc : forall k, exists cols, env_read_csv failing_env k = Some cols)
    by (intros k; eexists; reflexivity).
  assert (Hg : forall k p, exists text code,
            env_generate failing_env k p = GenText text /\
            _extract_code text = Ret (Some code) /\ truthy code = true)
    by (intros k p; do 2 eexists; split; [reflexivity | split; reflexivity]).
  assert (Hw : forall k, env_write failing_env k = WriteOk) by (intros k; reflexivity).
  assert (Ht : forall k, test_passed (env_pytest failing_env k) = false)
    by (intros k; reflexivity).
  destruct (proj2 (persistent_failure_exhausts_budget failing_env Hc Hg Hw Ht
                     "/work" "icici" 2 None 5 ltac:(lia)) ltac:(simpl; lia)) as (c & H & _).
  exists c. exact H.
Defined.

(** ** Paths shared by [agent.py], [config.py] and [test_parser.py] *)

Lemma str_app_cancel_l (x y z : string) : x ++ y = x ++ z -> y = z.
Proof. intros H. apply str_app_inj in H as [_ H]; auto. Qed.

Lemma str_app_cancel_r (x y s : string) : x ++ s = y ++ s -> x = y.
Proof.
  intros H. assert (Hl : String.length x = String.length y).
  { apply (f_equal String.length) in H. rewrite !str_app_length in H. lia. }
  apply str_app_inj in H as [H _]; auto.
Qed.

Lemma no_slash_app (x y : string) :
  no_slash x = true -> no_slash y = true -> no_slash (x ++ y) = true.
Proof.
  induction x as [|c x IH]; simpl; [auto|].
  intros H Hy. apply andb_true_iff in H as [Hc Hx]. rewrite Hc, IH; auto.
Qed.

Lemma split_slash_no_slash (s : string) : no_slash s = true -> split_slash s = [s].
Proof.
  induction s as [|c s IH]; simpl; [reflexivity|].
  intros H. apply andb_true_iff in H as [Hc Hs].
  apply negb_true_iff in Hc. rewrite Hc, (IH Hs). reflexivity.
Qed.

Lemma pure_path_name (s : string) :
  no_slash s = true -> keep_part s = true -> pure_path s = mkPurePath EmptyString [s].
Proof.
  intros H Hk. unfold pure_path. rewrite (split_slash_no_slash s H). simpl.
  rewrite Hk. f_equal. destruct s as [|c r]; [reflexivity|].
  simpl in H. apply andb_true_iff in H as [Hc _]. apply negb_true_iff in Hc.
  simpl. rewrite Hc. reflexivity.
Qed.

Lemma keep_part_suffix (t : string) : keep_part (t ++ "_parser.py") = true.
Proof.
  unfold keep_part. destruct t as [|c r]; [reflexivity|]. simpl.
  destruct (c =? ".")%char; [destruct r|]; reflexivity.
Qed.

Lemma join_slash_snoc (l : list string) (x : string) :
  l <> [] -> join_slash (l ++ [x]) = join_slash l ++ "/" ++ x.
Proof.
  induction l as [|a l IH]; intros H; [contradiction|].
  destruct l as [|b l]; [reflexivity|].
  change (join_slash ((a :: b :: l) ++ [x])) with (a ++ "/" ++ join_slash ((b :: l) ++ [x])).
  rewrite IH by discriminate. simpl join_slash. rewrite !str_app_assoc. reflexivity.
Qed.

Lemma path_str_snoc (r : string) (l : list string) (x : string) :
  l <> [] -> path_str (mkPurePath r (l ++ [x])) = r ++ join_slash l ++ "/" ++ x.
Proof.
  intros H. unfold path_str. simpl.
  destruct (l ++ [x])%list eqn:E; [destruct l; discriminate|].
  rewrite <- E, join_slash_snoc by exact H. reflexivity.
Qed.

Lemma pure_path_parsers : pure_path "custom_parsers" = mkPurePath EmptyString ["custom_parsers"].
Proof. reflexivity. Qed.

Lemma pure_path_test_parser :
  pure_path ("custom_parsers/" ++ test_bank_name ++ "_parser.py") =
  mkPurePath EmptyString ["custom_parsers"; "icici_parser.py"].
Proof. reflexivity. Qed.

(** The agent writes the parser to
    [Path.cwd() / "custom_parsers" / f"{target}_parser.py"] and the test
    suite, whose [bank_name] fixture is fixed to [icici], loads
    [Path.cwd() / "custom_parsers/icici_parser.py"].  For a target without
    a slash the two paths are the same exactly when the target is [icici];
    pathlib drops ["."] parts, so the target [./icici] also gives the path
    the test suite loads. *)
Theorem parser_paths_agree (cwd target : string) (L : Z) :
  (no_slash target = true ->
   (parser_path (initial_state cwd target L) = test_parser_path cwd <-> target = "icici")) /\
  parser_path (initial_state cwd "./icici" L) = test_parser_path cwd.
Proof.
  split.
  - intros Hs.
    assert (Hn : no_slash (target ++ "_parser.py") = true)
      by (apply no_slash_app; [exact Hs | reflexivity]).
    unfold initial_state, test_parser_path. cbn [parser_path].
    unfold path_div. rewrite (pure_path_name _ Hn (keep_part_suffix target)).
    rewrite pure_path_parsers, pure_path_test_parser.
    cbn [pp_root pp_parts String.eqb app].
    set (P := (pp_parts (pure_path cwd) ++ ["custom_parsers"])%list).
    replace ((pp_parts (pure_path cwd) ++ ["custom_parsers"; "icici_parser.py"])%list)
      with (P ++ ["icici_parser.py"])%list by (unfold P; rewrite <- app_assoc; reflexivity).
    assert (HP : P <> []) by (unfold P; destruct (pp_parts (pure_path cwd)); discriminate).
    rewrite !path_str_snoc by exact HP. split.
    + intros H. apply str_app_cancel_l, str_app_cancel_l, str_app_cancel_l in H.
      apply (str_app_cancel_r _ _ "_parser.py"). exact H.
    + intros ->. reflexivity.
  - unfold initial_state, test_parser_path. cbn [parser_path].
    unfold path_div.
    replace (pure_path ("./icici" ++ "_parser.py"))
      with (mkPurePath EmptyString ["icici_parser.py"]) by reflexivity.
    rewrite pure_path_parsers, pure_path_test_parser.
    cbn [pp_root pp_parts String.eqb app]. rewrite <- app_assoc. reflexivity.
Qed.

Lemma parser_paths_agree_witness :
  no_slash "sbi" = true /\
  parser_path (initial_state "/work" "sbi" 3) <> test_parser_path "/work".
Proof.
  assert (Hs : no_slash "sbi" = true) by reflexivity.
  split; [exact Hs|].
  intros H. apply (proj1 (parser_paths_agree "/work" "sbi" 3) Hs) in H. discriminate.
Defined.

(** ** [config.py]: validation and directory creation *)

Module ConfigProofs.
Import ConfigPy.








Lemma path_mkdir_fuel_eq (n : nat) (par ex : bool) (p : string) (fs : FS) :
  path_mkdir_fuel n par ex p fs =
  match os_mkdir p fs with
  | Ret fs' => Ret fs'
  | Raise m =>
      if String.eqb m "FileNotFoundError" then
        if negb par || String.eqb (parent p) p then Raise m
        else match n with
             | O => Raise m
             | S f =>
                 match path_mkdir_fuel f true true (parent p) fs with
                 | Raise m' => Raise m'
                 | Ret fs1 => path_mkdir_fuel f false ex p fs1
                 end
             end
      else if negb ex || negb (is_dir fs p) then Raise m
      else Ret fs
  end.
Proof. destruct n; reflexivity. Qed.






(** If [DATA_DIR] exists as a regular file, [create_directories] raises
    [FileExistsError] on its first [mkdir]. *)
Theorem create_directories_data_file (base : string) (fs : FS) :
  fs (DATA_DIR base) = Some KFile ->
  create_directories base fs = Raise "FileExistsError".
Proof.
  intros H. unfold create_directories. simpl. unfold path_mkdir.
  rewrite path_mkdir_fuel_eq. unfold os_mkdir. rewrite H. simpl.
  unfold is_dir. rewrite H. reflexivity.
Qed.



End ConfigProofs.

(** ** [icici_parser.py] *)

Module IciciParserProofs.
Import IciciParser.

Lemma flat_map_length_le {A B C : Type} (f : A -> list B) (g : A -> list C) (l : list A) :
  (forall x, (List.length (f x) <= List.length (g x))%nat) ->
  (List.length (flat_map f l) <= List.length (flat_map g l))%nat.
Proof.
  intros H. induction l as [|x l IH]; simpl; [lia|].
  rewrite !length_app. specialize (H x). lia.
Qed.

Section ParseProofs.

Variable Flt : Type.
Variable py_float : string -> option Flt.

Local Abbreviation amount := (amount Flt py_float).
Local Abbreviation process_row := (process_row Flt py_float).
Local Abbreviation process_table := (process_table Flt py_float).
Local Abbreviation parse := (parse Flt py_float).

Lemma amount_blank (x : Cell) :
  (x = None \/ exists s, x = Some s /\ strip s = EmptyString) -> amount x = Ret None.
Proof.
  intros [->|(s & -> & Hs)]; unfold IciciParser.amount; [reflexivity|].
  change (py_str (Some s)) with s. rewrite Hs.
  rewrite andb_false_r. reflexivity.
Qed.

Lemma process_row_length (row : list Cell) (r : RowData Flt) :
  process_row row = Some r -> List.length row = 5%nat.
Proof.
  intros H. destruct row as [|a [|b [|c [|d [|e [|f l]]]]]];
    try discriminate H; reflexivity.
Qed.

Lemma process_table_le (table : list (list Cell)) :
  (List.length (process_table table) <=
   List.length (filter (fun row => (List.length row =? 5)%nat) (tl table)))%nat.
Proof.
  destruct table as [|h rows]; simpl; [lia|].
  induction rows as [|row rows IH]; simpl; [lia|].
  destruct (process_row row) as [r|] eqn:E.
  - rewrite (process_row_length row r E). simpl. lia.
  - simpl. destruct (List.length row =? 5)%nat; simpl; lia.
Qed.

(** A five-cell row whose three amount cells are empty ([None]) or only
    whitespace is kept, with no amount at all, rather than skipped. *)
Theorem blank_amounts_kept (date description debit credit balance : Cell) :
  (debit = None \/ exists s, debit = Some s /\ strip s = EmptyString) ->
  (credit = None \/ exists s, credit = Some s /\ strip s = EmptyString) ->
  (balance = None \/ exists s, balance = Some s /\ strip s = EmptyString) ->
  process_row [date; description; debit; credit; balance] =
    Some (mkRowData Flt (strip (py_str date)) (strip (py_str description)) None None None).
Proof.
  intros Hd Hc Hb. unfold IciciParser.process_row.
  rewrite (amount_blank _ Hd), (amount_blank _ Hc), (amount_blank _ Hb). reflexivity.
Qed.

(** Since [float("")] raises [ValueError], an amount cell that is not blank
    but holds only commas and whitespace (such as [","]) raises
    [ValueError], and the row holding it in any amount column is dropped. *)
Theorem comma_only_amount_drops_row (s : string) :
  py_float EmptyString = None ->
  strip s <> EmptyString -> strip (remove_commas s) = EmptyString ->
  amount (Some s) = Raise "ValueError" /\
  forall d e a b,
    process_row [d; e; Some s; a; b] = None /\
    process_row [d; e; a; Some s; b] = None /\
    process_row [d; e; a; b; Some s] = None.
Proof.
  intros Hf Hs Hc.
  assert (Ha : amount (Some s) = Raise "ValueError").
  { unfold IciciParser.amount. change (py_str (Some s)) with s.
    assert (Ht : truthy s = true) by (destruct s; [contradiction | reflexivity]).
    assert (Hts : truthy (strip s) = true) by (destruct (strip s); [contradiction | reflexivity]).
    simpl truthy_opt. rewrite Ht, Hts, Hc, Hf. reflexivity. }
  split; [exact Ha|]. intros d e a b. unfold IciciParser.process_row. rewrite Ha.
  destruct (amount a), (amount b); repeat split.
Qed.

(** The frame [parse] returns has the five columns the test contract and
    [Config.REQUIRED_COLUMNS] expect as soon as one row is kept; when no row
    is kept (no table, only header rows, or every row skipped) it has no
    column at all. *)
Theorem parse_frame_columns (pages : list (list (list (list Cell)))) :
  exists fr, parse (PdfPages pages) = Ret (Some fr) /\
    frame_rows Flt fr = flat_map (flat_map process_table) pages /\
    (frame_rows Flt fr <> [] ->
       columns Flt fr = test_expected_cols /\ columns Flt fr = ConfigPy.REQUIRED_COLUMNS) /\
    (frame_rows Flt fr = [] -> columns Flt fr = []).
Proof.
  eexists. split; [reflexivity|]. split; [reflexivity|]. simpl.
  destruct (flat_map (flat_map process_table) pages); simpl.
  - split; [congruence | reflexivity].
  - split; [split; reflexivity | discriminate].
Qed.

(** Every row of the frame comes from a row with exactly five cells that is
    not the first row of its table; hence the frame has at most as many rows
    as there are such candidate rows. *)
Theorem parse_rows_from_candidates (pages : list (list (list (list Cell)))) (fr : Frame Flt) :
  parse (PdfPages pages) = Ret (Some fr) ->
  (forall r, In r (frame_rows Flt fr) ->
     exists row, In row (candidate_rows pages) /\ process_row row = Some r) /\
  (List.length (frame_rows Flt fr) <= List.length (candidate_rows pages))%nat.
Proof.
  intros H. simpl in H. injection H as <-. simpl. split.
  - intros r Hr. apply in_flat_map in Hr as (page & Hpage & Hr).
    apply in_flat_map in Hr as (table & Htable & Hr).
    destruct table as [|h rows]; [contradiction|]. simpl in Hr.
    apply in_flat_map in Hr as (row & Hrow & Hr).
    destruct (process_row row) as [r'|] eqn:E; [|contradiction].
    destruct Hr as [<-|[]].
    exists row. split; [|exact E].
    unfold candidate_rows. apply in_flat_map. exists page. split; [exact Hpage|].
    apply in_flat_map. exists (h :: rows). split; [exact Htable|].
    apply filter_In. split; [exact Hrow|]. rewrite (process_row_length row r' E). reflexivity.
  - unfold candidate_rows. apply flat_map_length_le. intros page.
    apply flat_map_length_le. apply process_table_le.
Qed.

End ParseProofs.

End IciciParserProofs.

(** ** Instances of the [config.py] and [icici_parser.py] properties *)

Lemma create_directories_data_file_witness :
  ConfigPy.create_directories "/w"
    (fun q => if String.eqb q "/w" then Some ConfigPy.KDir
              else if String.eqb q "/w/data" then Some ConfigPy.KFile else None)
  = Raise "FileExistsError".
Proof. apply ConfigProofs.create_directories_data_file. reflexivity. Defined.


Lemma blank_amounts_kept_witness :
  IciciParser.process_row nat sample_float
    [Some " 01/02/2024 "; None; None; Some "  "; Some ""] =
  Some (IciciParser.mkRowData nat "01/02/2024" "None" None None None).
Proof.
  apply (IciciParserProofs.blank_amounts_kept nat sample_float).
  - left. reflexivity.
  - right. exists "  ". split; reflexivity.
  - right. exists "". split; reflexivity.
Defined.

Lemma comma_only_amount_drops_row_witness :
  IciciParser.process_row nat sample_float
    [Some "01/02/2024"; Some "ATM"; Some ","; None; Some "100"] = None.
Proof.
  apply (proj2 (IciciParserProofs.comma_only_amount_drops_row nat sample_float ","
                  eq_refl ltac:(discriminate) eq_refl) _ _ _ _).
Defined.

Lemma parse_rows_from_candidates_witness :
  (List.length (IciciParser.frame_rows nat
     (IciciParser.DataFrame nat
        (flat_map (flat_map (IciciParser.process_table nat sample_float))
           [[[[Some "Date"; Some "Desc"; Some "Dr"; Some "Cr"; Some "Bal"];
              [Some "01/02/2024"; Some "ATM"; Some "10"; None; Some "90"];
              [Some "x"]]]]))) <= 1)%nat.
Proof.
  apply (proj2 (IciciParserProofs.parse_rows_from_candidates nat sample_float
                  [[[[Some "Date"; Some "Desc"; Some "Dr"; Some "Cr"; Some "Bal"];
                     [Some "01/02/2024"; Some "ATM"; Some "10"; None; Some "90"];
                     [Some "x"]]]] _ eq_refl)).
Defined.

(** ** The parser file across a run *)

(** What a generation step does to the file at [parser_path], once the
    reference CSV has been read: either the file is left as it was and the
    run ends without code (the model raised, its reply held no code,
    [os.makedirs] or [open] raised), or the reply held a non-empty program
    and [open(parser_path, "w")] truncated the file; then either the write
    succeeded, the file holds the program, which becomes [current_code],
    and the tests run next, or [f.write] raised after writing a prefix of
    the program, the file keeps that prefix (possibly empty),
    [current_code] is [None] and the run ends. *)
Theorem generation_file_effect (env : Env) (c : Config) (cols : list string) :
  node c = generate_code -> env_read_csv env (n_gen c) = Some cols ->
  exists c', step env c = Some c' /\
  ((parser_file c' = parser_file c /\ current_code (st c') = None /\ node c' = END) \/
   (exists text code,
      env_generate env (n_gen c) (build_prompt (st c)) = GenText text /\
      _extract_code text = Ret (Some code) /\ truthy code = true /\
      ((env_write env (n_gen c) = WriteOk /\ parser_file c' = Some code /\
        current_code (st c') = Some code /\ node c' = run_tests) \/
       (exists e n, env_write env (n_gen c) = WriteRaise e n /\
          parser_file c' = Some (substring 0 n code) /\
          current_code (st c') = None /\
          test_results (st c') = Some (MSG_GEN_EXC ++ e) /\ node c' = END)))).
Proof.
  intros Hn Hr. unfold step. rewrite Hn. unfold _generate_code_node. rewrite Hr.
  destruct (env_generate env (n_gen c) (build_prompt (st c))) as [e|text] eqn:Hg.
  - eexists. split; [reflexivity|]. left. repeat split.
  - destruct (_extract_code text) as [[code|]|e] eqn:Hx.
    + simpl truthy_opt. destruct (truthy code) eqn:Ht.
      * destruct (env_write env (n_gen c)) as [|e|e|e k] eqn:Hw;
          eexists; (split; [reflexivity|]).
        -- right. exists text, code. do 3 (split; [first [assumption | reflexivity]|]). left.
           unfold _should_test. simpl. rewrite ?Ht. repeat split.
        -- left. repeat split.
        -- left. repeat split.
        -- right. exists text, code. do 3 (split; [first [assumption | reflexivity]|]). right.
           exists e, k. repeat split.
      * eexists. split; [reflexivity|]. left.
        unfold _should_test. simpl. rewrite ?Ht. repeat split.
    + eexists. split; [reflexivity|]. left. repeat split.
    + eexists. split; [reflexivity|]. left. repeat split.
Qed.

Lemma generation_file_effect_witness :
  exists c', step write_fail_env sample_generate_config = Some c' /\
             parser_file c' = Some EmptyString.
Proof.
  destruct (generation_file_effect write_fail_env sample_generate_config sample_columns
              eq_refl eq_refl) as (c' & Hs & _).
  exists c'. split; [exact Hs|].
  vm_compute in Hs. injection Hs as <-. reflexivity.
Defined.
